(** * The splash screen of the installer UI (omaha/ui/splash_screen.cc)

    A shallow embedding of [SplashScreen]: the three guarded fields
    [state_], [alpha_index_] and [timer_created_], the public calls [Show]
    and [Dismiss], the worker thread function [Run], and the window-message
    handlers [OnTimer], [OnClose] and [OnDestroy].

    The Win32 primitives the class calls (the window, its timer, its posted
    messages, the quit request) are kept as a few fields of the same record,
    and every call the program makes to them is appended to a trace, so that
    statements about "opacity applied", "close requested" or "timer armed"
    are statements about that trace.

    Two threads use the object.  [Show] and [Dismiss] run on a caller thread
    and hold [lock_]; the message handlers run on the worker thread and take
    no lock, so they can run between any two statements of a [Dismiss] call:
    the record also says where a pending [Dismiss] stands.  The worker takes
    [lock_] in three places, the first block of [Run], the [Close] of the
    last tick and the last statement of [Run], and waits there while a
    [Dismiss] is in progress. *)

From Stdlib Require Import ZArith List Bool Lia.
Import ListNotations.
Open Scope Z_scope.

(** ** Machine integers *)

(** [int] is 32 bits wide; [int_wrap] reduces a mathematical integer to it. *)
Definition int_wrap (z : Z) : Z := (z + 2 ^ 31) mod 2 ^ 32 - 2 ^ 31.

(** [static_cast<uint8>]. *)
Definition uint8_cast (z : Z) : Z := z mod 256.

(** ** Constants of the anonymous namespace *)

Definition kClosingTimerID : Z := 1.
Definition kTimerInterval : Z := 100.
Definition kDefaultAlphaScale : Z := 100.
Definition kAlphaScales : list Z := [0; 30; 47; 62; 75; 85; 93; kDefaultAlphaScale].

(** [arraysize(kAlphaScales)]. *)
Definition arraysize {A} (l : list A) : Z := Z.of_nat (length l).

(** [kAlphaScales[i]]; an index outside the array (undefined in C++) reads 0. *)
Definition kAlphaScales_at (i : Z) : Z :=
  if i <? 0 then 0 else nth (Z.to_nat i) kAlphaScales 0.

(** The condition of the [ASSERT1] in [AlphaScaleToAlphaValue]. *)
Definition alpha_scale_ok (alpha_scale : Z) : bool :=
  (0 <=? alpha_scale) && (alpha_scale <=? 100).

(** [static_cast<uint8>(alpha_scale * 255 / 100)]: the product is an [int],
    the division truncates toward zero. *)
Definition AlphaScaleToAlphaValue (alpha_scale : Z) : Z :=
  uint8_cast (Z.quot (int_wrap (alpha_scale * 255)) 100).

(** ** Data model *)

(** Modelled from the spec: the enumeration [WindowState] is declared in
    splash_screen.h, which is not part of the sources at hand; its five
    values are the ones [SwitchToState] and [Dismiss] switch over. *)
Inductive WindowState : Type :=
| STATE_CREATED
| STATE_INITIALIZED
| STATE_SHOW_NORMAL
| STATE_FADING
| STATE_CLOSED.

Definition state_eqb (a b : WindowState) : bool :=
  match a, b with
  | STATE_CREATED, STATE_CREATED
  | STATE_INITIALIZED, STATE_INITIALIZED
  | STATE_SHOW_NORMAL, STATE_SHOW_NORMAL
  | STATE_FADING, STATE_FADING
  | STATE_CLOSED, STATE_CLOSED => true
  | _, _ => false
  end.

(** The messages the message loop hands out.  [WM_DESTROY] is not among
    them: it is sent synchronously from inside [DestroyWindow]. *)
Inductive Msg : Type := WM_TIMER | WM_CLOSE | WM_QUIT.

(** Calls to collaborators, in program order. *)
Inductive Effect : Type :=
| E_ThreadStart                (* thread_.Start(this) *)
| E_Assert                     (* an ASSERT1 whose condition was false *)
| E_Create (ok : bool)         (* Create(NULL) and its outcome *)
| E_ShowWindow                 (* ShowWindow(SW_SHOWNORMAL) *)
| E_SetAlpha (alpha : Z)       (* ::SetLayeredWindowAttributes(m_hWnd, 0, alpha, LWA_ALPHA) *)
| E_SetTimer (ok : bool)       (* SetTimer(kClosingTimerID, kTimerInterval, NULL) and its outcome *)
| E_KillTimer                  (* KillTimer(kClosingTimerID) *)
| E_LogWarning                 (* CORE_LOG(LW, ...) *)
| E_PostClose                  (* PostMessage(WM_CLOSE, 0, 0) *)
| E_DestroyWindow              (* DestroyWindow() *)
| E_PostQuit.                  (* ::PostQuitMessage(0) *)

(** Where the worker thread stands in [Run]. *)
Inductive ThreadPhase : Type :=
| NotStarted      (* thread_.Start never called *)
| Starting        (* started, Run not yet entered *)
| Initializing    (* inside the locked block of Run, after Initialize() *)
| InLoop          (* inside message_loop.Run(), at GetMessage *)
| InClose         (* inside OnTimer, the index at 0, entering Close() *)
| AfterLoop       (* message_loop.Run() has returned; next SwitchToState(STATE_CLOSED) *)
| Exited.         (* Run has returned *)

(** Where a caller thread stands inside [Dismiss] when the state was
    SHOW_NORMAL, that is inside [SwitchToState(STATE_FADING)], holding
    [lock_]; named after the statement that comes next. *)
Inductive CallerPC : Type :=
| Idle                 (* no call in progress: lock_ is free of callers *)
| AtAssert             (* state_ = STATE_FADING is stored; next ASSERT1(IsWindow()) *)
| AtSetTimer           (* next the call of SetTimer *)
| AtStore (r : bool)   (* SetTimer has answered r; next the store to timer_created_ *)
| AtLog                (* timer_created_ = false is stored; next CORE_LOG(LW, ...) *)
| AtClose.             (* next Close() *)

Record World : Type := mkWorld {
  state_ : WindowState;
  alpha_index_ : Z;
  timer_created_ : bool;
  hwnd : bool;            (* IsWindow() *)
  timer : bool;           (* SetTimer has succeeded and KillTimer was not called since *)
  queue : nat;            (* posted messages waiting; only WM_CLOSE is ever posted *)
  quit : bool;            (* a quit request is pending *)
  phase : ThreadPhase;
  trace : list Effect;
  caller : CallerPC
}.

Definition set_state (s : WindowState) (w : World) : World :=
  mkWorld s (alpha_index_ w) (timer_created_ w) (hwnd w) (timer w) (queue w)
          (quit w) (phase w) (trace w) (caller w).
Definition set_alpha_index (a : Z) (w : World) : World :=
  mkWorld (state_ w) a (timer_created_ w) (hwnd w) (timer w) (queue w)
          (quit w) (phase w) (trace w) (caller w).
Definition set_timer_created (b : bool) (w : World) : World :=
  mkWorld (state_ w) (alpha_index_ w) b (hwnd w) (timer w) (queue w)
          (quit w) (phase w) (trace w) (caller w).
Definition set_hwnd (b : bool) (w : World) : World :=
  mkWorld (state_ w) (alpha_index_ w) (timer_created_ w) b (timer w) (queue w)
          (quit w) (phase w) (trace w) (caller w).
Definition set_timer (b : bool) (w : World) : World :=
  mkWorld (state_ w) (alpha_index_ w) (timer_created_ w) (hwnd w) b (queue w)
          (quit w) (phase w) (trace w) (caller w).
Definition set_queue (n : nat) (w : World) : World :=
  mkWorld (state_ w) (alpha_index_ w) (timer_created_ w) (hwnd w) (timer w) n
          (quit w) (phase w) (trace w) (caller w).
Definition set_quit (b : bool) (w : World) : World :=
  mkWorld (state_ w) (alpha_index_ w) (timer_created_ w) (hwnd w) (timer w)
          (queue w) b (phase w) (trace w) (caller w).
Definition set_phase (p : ThreadPhase) (w : World) : World :=
  mkWorld (state_ w) (alpha_index_ w) (timer_created_ w) (hwnd w) (timer w)
          (queue w) (quit w) p (trace w) (caller w).

Definition set_caller (c : CallerPC) (w : World) : World :=
  mkWorld (state_ w) (alpha_index_ w) (timer_created_ w) (hwnd w) (timer w)
          (queue w) (quit w) (phase w) (trace w) c.

Definition emit (e : Effect) (w : World) : World :=
  mkWorld (state_ w) (alpha_index_ w) (timer_created_ w) (hwnd w) (timer w)
          (queue w) (quit w) (phase w) (trace w ++ [e]) (caller w).

(** ** Collaborators *)

(** [ASSERT1(c)]: reported when [c] is false; execution goes on. *)
Definition ASSERT1 (c : bool) (w : World) : World :=
  if c then w else emit E_Assert w.

(** [VERIFY1(e)], with [c] the value of [e].  The macro is defined in
    omaha/base/debug.h, which is not among the sources: it is taken to
    evaluate [e] in every build and to assert on its value like [ASSERT1]. *)
Definition VERIFY1 (c : bool) (w : World) : World := ASSERT1 c w.

(** [PostMessage(WM_CLOSE, 0, 0)]. *)
Definition PostMessage_WM_CLOSE (w : World) : World :=
  emit E_PostClose (set_queue (S (queue w)) w).

(** [SetTimer(kClosingTimerID, kTimerInterval, NULL) != 0].  The answer of
    the system is the input [timer_ok], taken as it comes; the timer is
    installed when the answer is yes. *)
Definition SetTimer (timer_ok : bool) (w : World) : bool * World :=
  let r := timer_ok in
  (r, emit (E_SetTimer r) (set_timer (r || timer w) w)).

(** [KillTimer(kClosingTimerID)]. *)
Definition KillTimer (w : World) : World :=
  emit E_KillTimer (set_timer false w).

(** [::PostQuitMessage(0)]. *)
Definition PostQuitMessage (w : World) : World :=
  emit E_PostQuit (set_quit true w).

(** [::SetLayeredWindowAttributes(m_hWnd, 0, AlphaScaleToAlphaValue(s), LWA_ALPHA)],
    with the assertion of [AlphaScaleToAlphaValue]. *)
Definition SetLayeredWindowAttributes_scale (alpha_scale : Z) (w : World) : World :=
  emit (E_SetAlpha (AlphaScaleToAlphaValue alpha_scale))
       (ASSERT1 (alpha_scale_ok alpha_scale) w).

(** [thread_.Start(this)]: one worker thread; a start request while it is
    running does not make a second one. *)
Definition Thread_Start (w : World) : World :=
  emit E_ThreadStart
       (match phase w with
        | NotStarted | Exited => set_phase Starting w
        | _ => w
        end).

(** ** The methods of SplashScreen *)

(** [SplashScreen::Close]. *)
Definition Close (w : World) : World :=
  if negb (state_eqb (state_ w) STATE_CLOSED) && hwnd w
  then PostMessage_WM_CLOSE w
  else w.

(** [SplashScreen::SwitchToState].  [timer_ok] is read only by [SetTimer].
    The [default:] branch takes no value of the enumeration. *)
Definition SwitchToState (new_state : WindowState) (timer_ok : bool)
    (w : World) : World :=
  let w := set_state new_state w in
  match new_state with
  | STATE_CREATED | STATE_INITIALIZED => w
  | STATE_SHOW_NORMAL =>
      set_alpha_index (int_wrap (arraysize kAlphaScales - 1)) w
  | STATE_FADING =>
      let w := ASSERT1 (hwnd w) w in
      let (r, w) := SetTimer timer_ok w in
      let w := set_timer_created r w in
      if negb r then Close (emit E_LogWarning w) else w
  | STATE_CLOSED => w
  end.

(** The constructor: [alpha_index_(0)], [timer_created_(false)],
    [SwitchToState(STATE_CREATED)].  Caption and text are not modelled. *)
Definition SplashScreen : World :=
  SwitchToState STATE_CREATED false
    (mkWorld STATE_CREATED 0 false false false 0%nat false NotStarted []
             Idle).

(** [SplashScreen::Show]. *)
Definition Show (w : World) : World :=
  if state_eqb (state_ w) STATE_CREATED
  then Thread_Start w
  else ASSERT1 false w.

(** [SplashScreen::Dismiss]. *)
Definition Dismiss (timer_ok : bool) (w : World) : World :=
  match state_ w with
  | STATE_CREATED => SwitchToState STATE_CLOSED timer_ok w
  | STATE_SHOW_NORMAL => SwitchToState STATE_FADING timer_ok w
  | STATE_CLOSED | STATE_FADING | STATE_INITIALIZED => w
  end.

(** What the collaborators answer during [Initialize]: [Create(NULL)],
    [SetWindowText(caption_)], [CenterWindow(NULL)] and
    [WindowUtils::SetWindowIcon]. *)
Record Answers : Type := mkAnswers {
  window_created : bool;
  text_set : bool;
  centered : bool;
  icon_set : bool
}.

Definition all_ok : Answers := mkAnswers true true true true.

(** [SplashScreen::Initialize]; the result is [true] for S_OK and [false]
    for GOOPDATE_E_UI_INTERNAL_ERROR.  The calls that neither assert nor log
    and touch none of the modelled fields (the system buttons, the controls
    of the dialog, the progress bar) leave no mark here; [EnableSystemButtons]
    and [InitProgressBar] are modelled on their own further down. *)
Definition Initialize (ans : Answers) (w : World) : bool * World :=
  let w := ASSERT1 (negb (hwnd w)) w in
  let w := ASSERT1 (state_eqb (state_ w) STATE_CREATED) w in
  let w := emit (E_Create (window_created ans)) w in
  if negb (window_created ans) then (false, w)
  else
    let w := set_hwnd true w in
    let w := VERIFY1 (text_set ans) w in
    let w := SetLayeredWindowAttributes_scale kDefaultAlphaScale w in
    let w := VERIFY1 (centered ans) w in
    let w := if negb (icon_set ans) then emit E_LogWarning w else w in
    (true, SwitchToState STATE_INITIALIZED false w).

(** [SplashScreen::OnTimer] up to the test: the two assertions and
    [--alpha_index_]. *)
Definition OnTimer_decrement (w : World) : World :=
  let w := ASSERT1 (state_eqb (state_ w) STATE_FADING) w in
  let w := ASSERT1 (0 <? alpha_index_ w) w in
  set_alpha_index (int_wrap (alpha_index_ w - 1)) w.

(** [SplashScreen::OnTimer]: [if (--alpha_index_) { ... } else { Close(); }]. *)
Definition OnTimer (w : World) : World :=
  let w := OnTimer_decrement w in
  if alpha_index_ w =? 0
  then Close w
  else SetLayeredWindowAttributes_scale (kAlphaScales_at (alpha_index_ w)) w.

(** [SplashScreen::OnDestroy]. *)
Definition OnDestroy (w : World) : World :=
  let w := if timer_created_ w then KillTimer (ASSERT1 (hwnd w) w) else w in
  PostQuitMessage w.

(** [DestroyWindow()]: the window receives WM_DESTROY while it still exists,
    and is gone afterwards.  The timer is touched by the program's own
    [KillTimer] only; what the system does to the timers of a window it
    destroys is not modelled. *)
Definition DestroyWindow (w : World) : World :=
  if hwnd w then set_hwnd false (OnDestroy (emit E_DestroyWindow w)) else w.

(** [SplashScreen::OnClose]. *)
Definition OnClose (w : World) : World := DestroyWindow w.

(** ** The worker thread *)

(** [GetMessage]: posted messages come first, then a pending quit request,
    then a timer tick; with none of them the thread blocks. *)
Definition GetMessage (w : World) : option Msg :=
  if (0 <? queue w)%nat then Some WM_CLOSE
  else if quit w then Some WM_QUIT
  else if timer w then Some WM_TIMER
  else None.

(** [DispatchMessage]: the message map routes WM_TIMER to [OnTimer] and
    WM_CLOSE to [OnClose]; a message for a window that is gone is dropped. *)
Definition DispatchMessage (m : Msg) (w : World) : World :=
  match m with
  | WM_CLOSE =>
      let w := set_queue (pred (queue w)) w in
      if hwnd w then OnClose w else w
  | WM_TIMER => if hwnd w then OnTimer w else w
  | WM_QUIT => w
  end.

(** [Run], first part of the locked block: the state test and [Initialize()]. *)
Definition Run_begin (ans : Answers) (w : World) : World :=
  if negb (state_eqb (state_ w) STATE_CREATED) then set_phase Exited w
  else
    let (ok, w) := Initialize ans w in
    if ok then set_phase Initializing w else set_phase Exited w.

(** [Run], rest of the locked block: [ShowWindow] and
    [SwitchToState(STATE_SHOW_NORMAL)]; the message loop comes next. *)
Definition Run_show (w : World) : World :=
  let w := ASSERT1 (hwnd w) w in
  let w := emit E_ShowWindow w in
  set_phase InLoop (SwitchToState STATE_SHOW_NORMAL false w).

(** [message_loop.Run()] returns: the quit request has been taken. *)
Definition Run_leave (w : World) : World :=
  set_phase AfterLoop (set_quit false w).

(** The last statement of [Run]: [SwitchToState(STATE_CLOSED)]. *)
Definition Run_close (w : World) : World :=
  set_phase Exited (SwitchToState STATE_CLOSED false w).

(** [Run], from the WM_QUIT that ends the message loop to the return. *)
Definition Run_end (w : World) : World := Run_close (Run_leave w).

(** [CMessageLoop::Run] with the worker left alone: [None] when the fuel is
    used up or the thread blocks for ever. *)
Fixpoint message_loop (fuel : nat) (w : World) : option World :=
  match fuel with
  | O => None
  | S fuel' =>
      match GetMessage w with
      | None => None
      | Some WM_QUIT => Some w
      | Some m => message_loop fuel' (DispatchMessage m w)
      end
  end.

(** [SplashScreen::Run] as one function, the worker left alone. *)
Definition Run (ans : Answers) (fuel : nat) (w : World) : option World :=
  let w := Run_begin ans w in
  match phase w with
  | Initializing =>
      match message_loop fuel (Run_show w) with
      | Some w => Some (Run_end w)
      | None => None
      end
  | _ => Some w
  end.

(** ** Interleavings of the two threads *)

(** [SplashScreen::Dismiss], one statement at a time.  A call that finds the
    state SHOW_NORMAL goes through [SwitchToState(STATE_FADING)] in the steps
    of [CallerPC]; in every other state the call is the one read of [state_]
    and, from CREATED, the store of STATE_CLOSED, made under [lock_], which
    the worker needs for its only other write to [state_] before the loop. *)
Definition Dismiss_step (timer_ok : bool) (w : World) : World :=
  match caller w with
  | Idle =>
      match state_ w with
      | STATE_CREATED => SwitchToState STATE_CLOSED timer_ok w
      | STATE_SHOW_NORMAL => set_caller AtAssert (set_state STATE_FADING w)
      | STATE_CLOSED | STATE_FADING | STATE_INITIALIZED => w
      end
  | AtAssert => set_caller AtSetTimer (ASSERT1 (hwnd w) w)
  | AtSetTimer =>
      let (r, w) := SetTimer timer_ok w in set_caller (AtStore r) w
  | AtStore r =>
      let w := set_timer_created r w in
      if negb r then set_caller AtLog w else set_caller Idle w
  | AtLog => set_caller AtClose (emit E_LogWarning w)
  | AtClose => set_caller Idle (Close w)
  end.

(** What can happen next.  A caller thread calls [Show], or executes the
    next statement of a [Dismiss] call; the worker thread advances in [Run]
    ([EvPump] is its next step in the message loop or after it); the outside
    world may post WM_CLOSE to the window. *)
Inductive Event : Type :=
| EvShow
| EvDismiss (timer_ok : bool)
| EvRunBegin (ans : Answers)
| EvRunShow
| EvPump
| EvExternalClose.

(** No caller thread holds [lock_]. *)
Definition caller_idle (w : World) : bool :=
  match caller w with Idle => true | _ => false end.

(** [lock_] is free: no caller is inside [Dismiss], and the worker is not in
    the locked block of [Run] (from [Run_begin] to [Run_show]). *)
Definition lock_free (w : World) : bool :=
  caller_idle w &&
  match phase w with Initializing => false | _ => true end.

(** The tick that brings the index to 0 calls [Close], which takes [lock_]. *)
Definition OnTimer_takes_lock (w : World) : bool :=
  int_wrap (alpha_index_ w - 1) =? 0.

(** One step; [None] when the event cannot happen in [w].  A step that takes
    [lock_] waits until no caller holds it: a new call of [Show] or [Dismiss],
    the locked block of [Run], the [Close] of the last tick, and
    [SwitchToState(STATE_CLOSED)] after the loop.  What the worker does
    before such a wait is a step of its own: the last tick lowers the index
    to 0 and then stands in [InClose]; the loop takes the quit request and
    then stands in [AfterLoop].  The handlers [OnClose] and [OnDestroy] take
    no lock and run whenever their message is the next one.  A handler is
    one step: it reads [timer_created_] once, and of what it writes a
    pending [Dismiss] reads the window only, each time in a statement of its
    own, so any finer interleaving ends as one of these. *)
Definition step (e : Event) (w : World) : option World :=
  match e with
  | EvShow => if lock_free w then Some (Show w) else None
  | EvDismiss timer_ok =>
      if lock_free w || negb (caller_idle w)
      then Some (Dismiss_step timer_ok w)
      else None
  | EvRunBegin ans =>
      match phase w with
      | Starting => if caller_idle w then Some (Run_begin ans w) else None
      | _ => None
      end
  | EvRunShow =>
      match phase w with
      | Initializing => Some (Run_show w)
      | _ => None
      end
  | EvPump =>
      match phase w with
      | InLoop =>
          match GetMessage w with
          | None => None
          | Some WM_QUIT => Some (Run_leave w)
          | Some WM_TIMER =>
              if hwnd w && OnTimer_takes_lock w
              then Some (set_phase InClose (OnTimer_decrement w))
              else Some (DispatchMessage WM_TIMER w)
          | Some WM_CLOSE => Some (DispatchMessage WM_CLOSE w)
          end
      | InClose =>
          if caller_idle w then Some (set_phase InLoop (Close w)) else None
      | AfterLoop => if caller_idle w then Some (Run_close w) else None
      | _ => None
      end
  | EvExternalClose =>
      if hwnd w then Some (set_queue (S (queue w)) w) else None
  end.

Fixpoint run (evs : list Event) (w : World) : option World :=
  match evs with
  | [] => Some w
  | e :: evs' =>
      match step e w with
      | Some w' => run evs' w'
      | None => None
      end
  end.

(** The worlds some interleaving leads to from a freshly constructed object. *)
Definition reachable (w : World) : Prop :=
  exists evs, run evs SplashScreen = Some w.

(** ** Observations on a trace *)

(** The opacity values applied, in order. *)
Fixpoint alphas (tr : list Effect) : list Z :=
  match tr with
  | [] => []
  | E_SetAlpha a :: tr' => a :: alphas tr'
  | _ :: tr' => alphas tr'
  end.

Definition is_assert (e : Effect) : bool :=
  match e with E_Assert => true | _ => false end.

(** Effects that need a native window: a successful [Create], showing it,
    an opacity change, a timer call, a posted close or quit request, the
    teardown. *)
Definition window_effect (e : Effect) : bool :=
  match e with
  | E_Create true | E_ShowWindow | E_SetAlpha _ | E_SetTimer _
  | E_KillTimer | E_PostClose | E_DestroyWindow | E_PostQuit => true
  | _ => false
  end.

Definition windowless (tr : list Effect) : bool :=
  forallb (fun e => negb (window_effect e)) tr.

(** [n] timer ticks in a row. *)
Fixpoint ticks (n : nat) (w : World) : World :=
  match n with
  | O => w
  | S n' => ticks n' (OnTimer w)
  end.

(** [n] calls of [Dismiss] in a row. *)
Fixpoint Dismiss_n (n : nat) (timer_ok : bool) (w : World) : World :=
  match n with
  | O => w
  | S n' => Dismiss_n n' timer_ok (Dismiss timer_ok w)
  end.

(** The four statements of a [Dismiss] call that arms the timer. *)
Definition dismiss_armed : list Event :=
  [EvDismiss true; EvDismiss true; EvDismiss true; EvDismiss true].

(** A complete life: shown, dismissed with the timer armed, seven ticks
    (the last one in two steps), the close request, the quit request and the
    return of [Run]. *)
Definition happy_path : list Event :=
  [EvShow; EvRunBegin all_ok; EvRunShow] ++ dismiss_armed ++
  repeat EvPump 11.

(** * Invariants of the reachable worlds *)

Definition before_fading (s : WindowState) : bool :=
  match s with
  | STATE_CREATED | STATE_INITIALIZED | STATE_SHOW_NORMAL => true
  | _ => false
  end.

Definition created_or_closed (s : WindowState) : bool :=
  match s with
  | STATE_CREATED | STATE_CLOSED => true
  | _ => false
  end.

Definition shown_or_fading (s : WindowState) : bool :=
  match s with
  | STATE_SHOW_NORMAL | STATE_FADING => true
  | _ => false
  end.

Definition in_close (p : ThreadPhase) : bool :=
  match p with InClose => true | _ => false end.

(** The worker is past the state test of [Run] and has not returned. *)
Definition past_start (p : ThreadPhase) : bool :=
  match p with
  | Initializing | InLoop | InClose | AfterLoop => true
  | _ => false
  end.

(** The worker is in the message loop or past it, and has not returned. *)
Definition loop_entered (p : ThreadPhase) : bool :=
  match p with InLoop | InClose | AfterLoop => true | _ => false end.

(** The answer of [SetTimer] that a pending [Dismiss] has still to store. *)
Definition pending_answer (c : CallerPC) : bool :=
  match c with AtStore r => r | _ => false end.

(** What every reachable world satisfies. *)
Definition Inv (w : World) : Prop :=
  0 <= alpha_index_ w <= 7 /\
  (timer w = true -> alpha_index_ w = 0 -> in_close (phase w) = false ->
     timer_created_ w = true /\ hwnd w = true /\ queue w <> 0%nat) /\
  (state_ w = STATE_SHOW_NORMAL -> alpha_index_ w = 7) /\
  (before_fading (state_ w) = true ->
     timer_created_ w = false /\ timer w = false /\ caller w = Idle) /\
  (state_ w = STATE_CREATED -> windowless (trace w) = true) /\
  match phase w with
  | NotStarted | Starting | Exited =>
      created_or_closed (state_ w) = true /\ hwnd w = false /\
      queue w = 0%nat /\ quit w = false /\ caller w = Idle
  | Initializing =>
      state_ w = STATE_INITIALIZED /\ hwnd w = true /\ quit w = false
  | InLoop =>
      shown_or_fading (state_ w) = true /\ hwnd w = negb (quit w)
  | InClose =>
      state_ w = STATE_FADING /\ hwnd w = true /\ quit w = false /\
      alpha_index_ w = 0 /\ timer w = true
  | AfterLoop =>
      shown_or_fading (state_ w) = true /\ hwnd w = false /\
      quit w = false /\ queue w = 0%nat
  end /\
  match caller w with
  | Idle => timer w = true -> timer_created_ w = true
  | c =>
      state_ w = STATE_FADING /\ loop_entered (phase w) = true /\
      timer_created_ w = false /\ timer w = pending_answer c /\
      (in_close (phase w) = false -> 1 <= alpha_index_ w)
  end.

(** The order in which the states are visited. *)
Definition rank (s : WindowState) : nat :=
  match s with
  | STATE_CREATED => 0
  | STATE_INITIALIZED => 1
  | STATE_SHOW_NORMAL => 2
  | STATE_FADING => 3
  | STATE_CLOSED => 4
  end.

(** The fade has run down: the index is 0 in FADING or CLOSED. *)
Definition Faded (w : World) : Prop :=
  Inv w /\ alpha_index_ w = 0 /\
  (state_ w = STATE_FADING \/ state_ w = STATE_CLOSED).

(** The splash screen was closed before any window existed. *)
Definition NoWindow (w : World) : Prop :=
  state_ w = STATE_CLOSED /\ hwnd w = false /\ timer w = false /\
  timer_created_ w = false /\ queue w = 0%nat /\ quit w = false /\
  windowless (trace w) = true /\ caller w = Idle /\
  past_start (phase w) = false.

(** The world on entry into SHOW_NORMAL on the worker's first run. *)
Definition shown : World :=
  Eval vm_compute in Run_show (Run_begin all_ok (Show SplashScreen)).

(** The effects added to the trace between [w] and a later [w']. *)
Definition effects_since (w w' : World) : list Effect :=
  skipn (length (trace w)) (trace w').

(** The world after [Dismiss] has armed the fade timer. *)
Definition fading : World := Eval vm_compute in Dismiss true shown.

(** The world at the end of [happy_path]. *)
Definition faded_out : World :=
  Eval vm_compute in
  match run happy_path SplashScreen with
  | Some w => w
  | None => SplashScreen
  end.

(** The world in which the message loop returns when a fade runs with the
    worker left alone. *)
Definition fade_loop_end : World :=
  Eval vm_compute in
  match message_loop 9 fading with
  | Some w => w
  | None => SplashScreen
  end.

(** * The rest of the class *)

(** ** The destructor *)


Definition kWaitTimeoutInMillisecond : Z := 60000.




(** ** Window chrome *)

(** The progress bar control: its style word and the last PBM_SETMARQUEE
    it was sent (on/off and the interval). *)
Record ProgressBar : Type := mkProgressBar {
  pb_style : Z;
  pb_marquee : option (bool * Z)
}.

(** The style bits come from the Windows headers, which are not among the
    sources; they are taken as parameters.  A style is a LONG; the bitwise
    operations act on each bit of the two's complement value and cannot
    overflow, so no wrap is written. *)
Section WindowStyles.

Variables WS_MINIMIZEBOX WS_SYSMENU WS_MAXIMIZEBOX : Z.
Variables WS_CHILD WS_VISIBLE PBS_MARQUEE PBS_SMOOTH : Z.

Definition kSysStyleMask : Z :=
  Z.lor (Z.lor WS_MINIMIZEBOX WS_SYSMENU) WS_MAXIMIZEBOX.

(** [SplashScreen::EnableSystemButtons], on the value of GWL_STYLE. *)
Definition EnableSystemButtons (enable : bool) (style : Z) : Z :=
  if enable
  then Z.lor style kSysStyleMask
  else Z.land style (Z.lnot kSysStyleMask).

Definition kStyle : Z :=
  Z.lor (Z.lor (Z.lor WS_CHILD WS_VISIBLE) PBS_MARQUEE) PBS_SMOOTH.

(** [SplashScreen::InitProgressBar], on the control IDC_PROGRESS. *)
Definition InitProgressBar (progress_bar : ProgressBar) : ProgressBar :=
  let style := Z.lor (pb_style progress_bar) kStyle in
  mkProgressBar style (Some (true, 60)).

End WindowStyles.

(** ** Counting on a trace *)

(** How many effects of a trace satisfy [p]. *)
Definition count_eff (p : Effect -> bool) (tr : list Effect) : nat :=
  length (filter p tr).

Definition is_create (e : Effect) : bool :=
  match e with E_Create true => true | _ => false end.
Definition is_set_timer (e : Effect) : bool :=
  match e with E_SetTimer _ => true | _ => false end.
Definition is_timer_armed (e : Effect) : bool :=
  match e with E_SetTimer true => true | _ => false end.
Definition is_kill_timer (e : Effect) : bool :=
  match e with E_KillTimer => true | _ => false end.
Definition is_destroy (e : Effect) : bool :=
  match e with E_DestroyWindow => true | _ => false end.
Definition is_post_quit (e : Effect) : bool :=
  match e with E_PostQuit => true | _ => false end.

(** The opacity values of the table read from the top down. *)
Definition fade_values : list Z :=
  map AlphaScaleToAlphaValue (rev kAlphaScales).

(** What is done at most once in a life, and in which order. *)
Definition Once (w : World) : Prop :=
  let n p := count_eff p (trace w) in
  (n is_create <= 1)%nat /\
  (state_ w = STATE_CREATED -> n is_create = 0%nat /\ n is_destroy = 0%nat) /\
  (n is_set_timer <= 1)%nat /\
  (n is_timer_armed <= n is_set_timer)%nat /\
  (before_fading (state_ w) = true -> n is_set_timer = 0%nat) /\
  match caller w with
  | AtAssert | AtSetTimer => n is_set_timer = 0%nat
  | AtStore r => n is_timer_armed = (if r then 1 else 0)%nat
  | _ => True
  end /\
  (n is_destroy <= n is_create)%nat /\
  (hwnd w = true -> n is_create = 1%nat /\ n is_destroy = 0%nat) /\
  n is_post_quit = n is_destroy /\
  (n is_kill_timer <= n is_destroy)%nat /\
  (timer_created_ w = false -> n is_kill_timer = 0%nat) /\
  (timer_created_ w = true -> n is_timer_armed = 1%nat).

(** The opacities applied so far, by state. *)
Definition Opacities (w : World) : Prop :=
  let so_far := Z.to_nat (8 - Z.max (alpha_index_ w) 1) in
  match state_ w with
  | STATE_CREATED => alphas (trace w) = []
  | STATE_INITIALIZED | STATE_SHOW_NORMAL =>
      alphas (trace w) = firstn 1 fade_values
  | STATE_FADING => alphas (trace w) = firstn so_far fade_values
  | STATE_CLOSED =>
      alphas (trace w) = [] \/ alphas (trace w) = firstn so_far fade_values
  end.

(** Once [Dismiss] has returned, a fade has something to wake the loop. *)
Definition Awake (w : World) : Prop :=
  state_ w = STATE_FADING -> caller w = Idle -> phase w = InLoop ->
  timer w = true \/ queue w <> 0%nat \/ quit w = true.

(** The assertions an event trips in [w]: the one of [Show], the one on
    the window in [SwitchToState(STATE_FADING)], and the two [VERIFY1] of
    [Initialize]. *)
Definition asserts_of (e : Event) (w : World) : nat :=
  match e with
  | EvShow => if state_eqb (state_ w) STATE_CREATED then 0 else 1
  | EvDismiss _ =>
      match caller w with
      | AtAssert => if hwnd w then 0 else 1
      | _ => 0
      end
  | EvRunBegin ans =>
      if state_eqb (state_ w) STATE_CREATED && window_created ans
      then (if text_set ans then 0 else 1) + (if centered ans then 0 else 1)
      else 0
  | _ => 0
  end.

(** Nothing but tripped assertions. *)
Definition only_asserts (tr : list Effect) : bool := forallb is_assert tr.

(** Closed and at rest: no window, nothing queued, no call in progress. *)
Definition Quiet (w : World) : Prop :=
  state_ w = STATE_CLOSED /\ hwnd w = false /\
  queue w = 0%nat /\ quit w = false /\ caller w = Idle /\
  past_start (phase w) = false.

(** The window is gone and the worker is on its way out of [Run]: the loop
    has the quit request to take, or has taken it. *)
Definition Leaving (w : World) : Prop :=
  hwnd w = false /\
  ((phase w = InLoop /\ quit w = true) \/ phase w = AfterLoop).

(** [Dismiss] has armed the timer and has not yet stored the answer. *)
Definition arming : World :=
  Eval vm_compute in
  match run ([EvShow; EvRunBegin all_ok; EvRunShow] ++
             [EvDismiss true; EvDismiss true; EvDismiss true])
            SplashScreen with
  | Some w => w
  | None => SplashScreen
  end.

(** [arming] with a close request from outside waiting in the queue. *)
Definition arming_close_pending : World :=
  Eval vm_compute in
  match step EvExternalClose arming with
  | Some w => w
  | None => SplashScreen
  end.

(** A shown window with a close request from outside waiting in the
    queue. *)
Definition close_pending : World :=
  Eval vm_compute in
  match run [EvShow; EvRunBegin all_ok; EvRunShow; EvExternalClose]
            SplashScreen with
  | Some w => w
  | None => SplashScreen
  end.

(** A shown window that was closed from outside: torn down, the quit
    request not yet taken by the loop. *)
Definition torn_down : World :=
  Eval vm_compute in
  match run [EvShow; EvRunBegin all_ok; EvRunShow; EvExternalClose; EvPump]
            SplashScreen with
  | Some w => w
  | None => SplashScreen
  end.

(** The worker has been started and has not yet entered [Run]. *)
Definition started : World := Eval vm_compute in Show SplashScreen.

(** * Lemmas *)

Lemma int_wrap_small (z : Z) :
  - 2 ^ 31 <= z < 2 ^ 31 -> int_wrap z = z.
Proof.
  intros H. unfold int_wrap.
  rewrite Z.mod_small by lia. lia.
Qed.

Lemma windowless_app (tr : list Effect) (e : Effect) :
  windowless (tr ++ [e]) = windowless tr && negb (window_effect e).
Proof.
  unfold windowless. rewrite forallb_app. simpl. now rewrite andb_true_r.
Qed.

Lemma alphas_app (tr1 tr2 : list Effect) :
  alphas (tr1 ++ tr2) = alphas tr1 ++ alphas tr2.
Proof.
  induction tr1 as [|e tr1 IH]; simpl; [reflexivity|].
  destruct e; simpl; now rewrite ?IH.
Qed.

Lemma Inv_init : Inv SplashScreen.
Proof.
  unfold Inv, SplashScreen; simpl.
  repeat split; try reflexivity; try lia; intros; discriminate.
Qed.
Lemma top_index : int_wrap (arraysize kAlphaScales - 1) = 7.
Proof. reflexivity. Qed.

#[local] Arguments int_wrap : simpl never.
#[local] Arguments AlphaScaleToAlphaValue : simpl never.
#[local] Arguments kAlphaScales_at : simpl never.
#[local] Arguments alpha_scale_ok : simpl never.

Ltac unfold_methods :=
  cbv [Show Dismiss Dismiss_step Run_begin Run_show Run_end Run_leave
       Run_close Initialize
       DispatchMessage OnClose DestroyWindow OnDestroy GetMessage
       SwitchToState SetTimer KillTimer PostQuitMessage Close
       PostMessage_WM_CLOSE SetLayeredWindowAttributes_scale Thread_Start
       ASSERT1 VERIFY1 lock_free caller_idle emit set_state set_alpha_index
       set_timer_created set_hwnd set_timer set_queue set_quit set_phase
       set_caller pending_answer
       state_ alpha_index_ timer_created_ hwnd timer queue quit phase trace
       caller window_created text_set centered icon_set
       negb andb orb state_eqb] in *.

Ltac proj_all :=
  cbn [state_ alpha_index_ timer_created_ hwnd timer queue quit phase trace
       caller] in *.

Ltac inv_facts :=
  repeat match goal with
         | H : _ /\ _ |- _ => destruct H
         | H : ?a = ?a -> _ |- _ => specialize (H eq_refl)
         | H : true = false -> _ |- _ => clear H
         | H : false = true -> _ |- _ => clear H
         end.

Ltac inv_open w HI :=
  destruct w as [st a tc h t q qu ph tr cp];
  unfold Inv in HI; cbn [state_ alpha_index_ timer_created_ hwnd timer queue
                         quit phase trace caller] in HI;
  destruct HI as (Ha & Ht & Hsn & Hbf & Hcl & Hph & Hcp).

Ltac inv_close :=
  unfold Inv; cbn [state_ alpha_index_ timer_created_ hwnd timer queue
                   quit phase trace caller];
  repeat match goal with
         | |- _ /\ _ => split
         | |- _ -> _ => intro
         end;
  subst; try reflexivity; try discriminate; try congruence; try lia;
  rewrite ?windowless_app, ?andb_true_iff in *; cbn in *; inv_facts;
  try reflexivity; try discriminate; try congruence; try lia; auto.

Ltac bools := repeat match goal with b : bool |- _ => destruct b end.

Ltac hyp_case :=
  repeat match goal with
         | H : context [before_fading _] |- _ => cbn [before_fading] in H
         | H : context [created_or_closed _] |- _ =>
             cbn [created_or_closed] in H
         | H : context [shown_or_fading _] |- _ => cbn [shown_or_fading] in H
         | H : context [pending_answer _] |- _ => cbn [pending_answer] in H
         | H : context [in_close _] |- _ => cbn [in_close] in H
         | H : context [loop_entered _] |- _ => cbn [loop_entered] in H
         | H : context [past_start _] |- _ => cbn [past_start] in H
         end;
  inv_facts; subst; try discriminate; try contradiction.

Ltac inv_case := hyp_case; bools; hyp_case; cbn [negb] in *; hyp_case.

(** The guards of [step] on an opened world. *)
Ltac step_guards Hs :=
  cbv [step lock_free caller_idle phase caller hwnd] in Hs.

Lemma table_scale_ok (i : Z) :
  0 <= i <= 7 -> alpha_scale_ok (kAlphaScales_at i) = true.
Proof.
  intros H.
  assert (C : i = 0 \/ i = 1 \/ i = 2 \/ i = 3 \/ i = 4 \/ i = 5 \/ i = 6 \/ i = 7)
    by lia.
  repeat (destruct C as [-> | C]; [reflexivity|]). subst; reflexivity.
Qed.

(** The first half of a tick in FADING with the index above 0. *)
Lemma OnTimer_decrement_step (w : World) :
  state_ w = STATE_FADING -> 0 < alpha_index_ w <= 7 ->
  OnTimer_decrement w = set_alpha_index (alpha_index_ w - 1) w.
Proof.
  intros HS HA. destruct w as [st a tc h t q qu ph tr cp]. cbn in HS, HA.
  subst st.
  assert (E0 : (0 <? a) = true) by (apply Z.ltb_lt; lia).
  unfold OnTimer_decrement. cbv [state_ state_eqb ASSERT1 alpha_index_].
  rewrite E0. cbv [alpha_index_]. rewrite int_wrap_small by lia. reflexivity.
Qed.

(** One tick in FADING with the index inside the table. *)
Lemma OnTimer_step (w : World) :
  state_ w = STATE_FADING -> 0 < alpha_index_ w <= 7 ->
  OnTimer w =
  if alpha_index_ w =? 1
  then Close (set_alpha_index 0 w)
  else emit (E_SetAlpha (AlphaScaleToAlphaValue (kAlphaScales_at (alpha_index_ w - 1))))
            (set_alpha_index (alpha_index_ w - 1) w).
Proof.
  intros HS HA. unfold OnTimer. rewrite OnTimer_decrement_step by assumption.
  destruct w as [st a tc h t q qu ph tr cp]. cbn in HS, HA. subst st.
  cbv [set_alpha_index state_ alpha_index_ timer_created_ hwnd timer queue
       quit phase trace caller].
  destruct (a =? 1) eqn:E1.
  - apply Z.eqb_eq in E1. subst a. reflexivity.
  - apply Z.eqb_neq in E1.
    replace (a - 1 =? 0) with false by (symmetry; apply Z.eqb_neq; lia).
    unfold SetLayeredWindowAttributes_scale.
    rewrite table_scale_ok by lia. reflexivity.
Qed.

(** What holds when the loop is about to deliver a tick. *)
Lemma tick_premises (w : World) :
  Inv w -> phase w = InLoop -> GetMessage w = Some WM_TIMER ->
  state_ w = STATE_FADING /\ hwnd w = true /\ 0 < alpha_index_ w <= 7 /\
  timer w = true /\ queue w = 0%nat /\ quit w = false.
Proof.
  intros HI HP HG. unfold GetMessage in HG.
  destruct (queue w) eqn:HQ; cbn in HG; [|discriminate].
  destruct (quit w) eqn:HQu; [discriminate|].
  destruct (timer w) eqn:HT; [|discriminate].
  destruct HI as (Ha & Ht & _ & Hbf & _ & Hph & _). rewrite HP in Hph, Ht.
  destruct Hph as (Hs & Hh). rewrite HQu in Hh.
  assert (alpha_index_ w <> 0).
  { intro H0. destruct (Ht HT H0 eq_refl) as (_ & _ & Hq). now apply Hq. }
  assert (state_ w = STATE_FADING).
  { destruct (state_ w); cbn in Hs, Hbf; try discriminate; auto.
    destruct (Hbf eq_refl) as (_ & E & _). rewrite HT in E. discriminate E. }
  repeat split; auto; lia.
Qed.

(** The steps the worker can take in and after the message loop. *)
Lemma pump_inv (w w' : World) :
  Inv w -> step EvPump w = Some w' ->
  (phase w = InLoop /\ state_ w = STATE_FADING /\ hwnd w = true /\
   timer w = true /\ queue w = 0%nat /\ quit w = false /\
   1 < alpha_index_ w <= 7 /\
   w' = emit (E_SetAlpha (AlphaScaleToAlphaValue
                            (kAlphaScales_at (alpha_index_ w - 1))))
             (set_alpha_index (alpha_index_ w - 1) w)) \/
  (phase w = InLoop /\ state_ w = STATE_FADING /\ hwnd w = true /\
   timer w = true /\ queue w = 0%nat /\ quit w = false /\
   alpha_index_ w = 1 /\
   w' = set_phase InClose (set_alpha_index 0 w)) \/
  (phase w = InClose /\ caller w = Idle /\
   w' = set_phase InLoop (PostMessage_WM_CLOSE w)) \/
  (phase w = InLoop /\ queue w <> 0%nat /\
   w' = DispatchMessage WM_CLOSE w) \/
  (phase w = InLoop /\ queue w = 0%nat /\ quit w = true /\
   w' = Run_leave w) \/
  (phase w = AfterLoop /\ caller w = Idle /\ w' = Run_close w).
Proof.
  intros HI Hs. cbv [step] in Hs. destruct (phase w) eqn:HP; try discriminate.
  - destruct (GetMessage w) as [[ | | ]|] eqn:HG; try discriminate.
    + destruct (tick_premises w HI HP HG) as (HS & HH & HA & HT & HQ & HQu).
      rewrite HH in Hs. cbn [andb] in Hs. unfold OnTimer_takes_lock in Hs.
      rewrite int_wrap_small in Hs by lia.
      destruct (alpha_index_ w - 1 =? 0) eqn:E; injection Hs as <-.
      * apply Z.eqb_eq in E. right; left.
        rewrite OnTimer_decrement_step by assumption.
        replace (alpha_index_ w - 1) with 0 by lia.
        repeat split; auto; lia.
      * apply Z.eqb_neq in E. left.
        unfold DispatchMessage. rewrite HH, OnTimer_step by assumption.
        replace (alpha_index_ w =? 1) with false
          by (symmetry; apply Z.eqb_neq; lia).
        repeat split; auto; lia.
    + injection Hs as <-. do 3 right. left.
      unfold GetMessage in HG.
      destruct (0 <? queue w)%nat eqn:HQ.
      * apply Nat.ltb_lt in HQ. repeat split; auto; lia.
      * destruct (quit w), (timer w); discriminate.
    + injection Hs as <-. do 4 right. left.
      unfold GetMessage in HG.
      destruct (0 <? queue w)%nat eqn:HQ; [discriminate|].
      apply Nat.ltb_ge in HQ.
      destruct (quit w); [repeat split; auto; lia|].
      destruct (timer w); discriminate.
  - destruct (caller_idle w) eqn:HC; [|discriminate]. injection Hs as <-.
    do 2 right. left.
    destruct HI as (_ & _ & _ & _ & _ & Hph & _). rewrite HP in Hph.
    destruct Hph as (HS & HH & _).
    unfold Close. rewrite HS, HH. cbn [state_eqb negb andb].
    unfold caller_idle in HC. destruct (caller w); try discriminate.
    repeat split; auto.
  - destruct (caller_idle w) eqn:HC; [|discriminate]. injection Hs as <-.
    do 5 right.
    unfold caller_idle in HC. destruct (caller w); try discriminate.
    repeat split; auto.
Qed.

Ltac pump_split w HI Hs :=
  destruct (pump_inv _ _ HI Hs) as
    [(HP & HS & HH & HT & HQ & HQu & HA & ->)
    |[(HP & HS & HH & HT & HQ & HQu & HA & ->)
    |[(HP & HC & ->)
    |[(HP & HQ & ->)
    |[(HP & HQ & HQu & ->)
    |(HP & HC & ->)]]]]]; clear Hs;
  inv_open w HI; proj_all; subst.

Lemma Show_Inv (w : World) : Inv w -> lock_free w = true -> Inv (Show w).
Proof.
  intros HI HL. inv_open w HI. cbv [lock_free caller_idle phase caller] in HL.
  destruct st, ph, cp; inv_case; unfold_methods; inv_close.
Qed.

Lemma Dismiss_step_Inv (ok : bool) (w : World) :
  Inv w -> lock_free w || negb (caller_idle w) = true ->
  Inv (Dismiss_step ok w).
Proof.
  intros HI HL. inv_open w HI. cbv [lock_free caller_idle phase caller] in HL.
  destruct st, ph, cp; inv_case; unfold_methods; inv_close.
Qed.

Lemma Run_begin_Inv (ans : Answers) (w : World) :
  Inv w -> phase w = Starting -> caller_idle w = true ->
  Inv (Run_begin ans w).
Proof.
  intros HI HP HC. inv_open w HI. cbn in HP; subst ph.
  destruct ans as [c x y z]. cbv [caller_idle caller] in HC.
  destruct st, cp; inv_case; unfold_methods; inv_close.
Qed.

Lemma Run_show_Inv (w : World) :
  Inv w -> phase w = Initializing -> Inv (Run_show w).
Proof.
  intros HI HP. inv_open w HI. cbn in HP; subst ph.
  destruct st, cp; inv_case; unfold_methods; rewrite top_index; inv_close.
Qed.

Lemma pump_Inv (w w' : World) :
  Inv w -> step EvPump w = Some w' -> Inv w'.
Proof.
  intros HI Hs. pump_split w HI Hs.
  - destruct cp; inv_case; unfold_methods; inv_close.
  - destruct cp; inv_case; unfold_methods; inv_close.
  - destruct st; inv_case; unfold_methods; inv_close.
  - destruct q as [|q]; [congruence|].
    destruct st, cp; inv_case; unfold_methods; cbn [pred]; inv_close.
  - destruct st, cp; inv_case; unfold_methods; inv_close.
  - destruct st; inv_case; unfold_methods; inv_close.
Qed.

Lemma ExternalClose_Inv (w : World) :
  Inv w -> hwnd w = true -> Inv (set_queue (S (queue w)) w).
Proof.
  intros HI HH. inv_open w HI. cbn in HH; subst h.
  destruct st, ph, cp; inv_case; unfold_methods; inv_close.
Qed.

Lemma step_Inv (e : Event) (w w' : World) :
  Inv w -> step e w = Some w' -> Inv w'.
Proof.
  intros HI Hs. destruct e as [ | ok | ans | | | ].
  - cbn in Hs. destruct (lock_free w) eqn:HL; [|discriminate].
    injection Hs as <-. now apply Show_Inv.
  - cbn [step] in Hs.
    destruct (lock_free w || negb (caller_idle w)) eqn:HL; [|discriminate].
    injection Hs as <-. now apply Dismiss_step_Inv.
  - cbn [step] in Hs. destruct (phase w) eqn:HP; try discriminate.
    destruct (caller_idle w) eqn:HC; [|discriminate].
    injection Hs as <-. now apply Run_begin_Inv.
  - cbn [step] in Hs. destruct (phase w) eqn:HP; try discriminate.
    injection Hs as <-. now apply Run_show_Inv.
  - eapply pump_Inv; eauto.
  - cbn [step] in Hs. destruct (hwnd w) eqn:HH; [|discriminate].
    injection Hs as <-. now apply ExternalClose_Inv.
Qed.

Lemma run_Inv (evs : list Event) :
  forall w w', Inv w -> run evs w = Some w' -> Inv w'.
Proof.
  induction evs as [|e evs IH]; intros w w' HI Hr; cbn in Hr.
  - now injection Hr as <-.
  - destruct (step e w) as [w1|] eqn:Hs; [|discriminate].
    eapply IH; [eapply step_Inv; eauto|exact Hr].
Qed.

Lemma reachable_Inv (w : World) : reachable w -> Inv w.
Proof. intros [evs Hr]. eapply run_Inv; [exact Inv_init|exact Hr]. Qed.

Lemma run_app (evs1 evs2 : list Event) (w : World) :
  run (evs1 ++ evs2) w =
  match run evs1 w with
  | Some w1 => run evs2 w1
  | None => None
  end.
Proof.
  revert w. induction evs1 as [|e evs1 IH]; intros w; cbn; [reflexivity|].
  destruct (step e w); auto.
Qed.

Lemma reachable_run (evs : list Event) (w w' : World) :
  reachable w -> run evs w = Some w' -> reachable w'.
Proof.
  intros [evs0 H0] Hr. exists (evs0 ++ evs). now rewrite run_app, H0.
Qed.

(** The events one by one, the world opened; the worker's steps in and
    after the loop come as the cases of [pump_inv]. *)
Ltac event_split e w HI Hs :=
  destruct e as [ | ok | ans | | | ];
  [ inv_open w HI; proj_all; step_guards Hs
  | inv_open w HI; proj_all; step_guards Hs
  | inv_open w HI; proj_all; destruct ans as [c x y z]; step_guards Hs
  | inv_open w HI; proj_all; step_guards Hs
  | pump_split w HI Hs
  | inv_open w HI; proj_all; step_guards Hs ].

Lemma default_scale_ok : alpha_scale_ok kDefaultAlphaScale = true.
Proof. reflexivity. Qed.

Ltac step_case :=
  repeat match goal with
         | st : WindowState |- _ => destruct st
         | ph : ThreadPhase |- _ => destruct ph
         | cp : CallerPC |- _ => destruct cp
         | HQ : ?q <> 0%nat |- _ => destruct q; [congruence|clear HQ]
         end;
  inv_case;
  try match goal with
      | H : _ = Some _ |- _ =>
          cbn [andb orb negb] in H; first [discriminate H | injection H as <-]
      end;
  unfold_methods; cbn [pred]; rewrite ?default_scale_ok.

(** The state only moves forward. *)
Lemma step_rank (e : Event) (w w' : World) :
  Inv w -> step e w = Some w' ->
  (rank (state_ w) <= rank (state_ w'))%nat.
Proof.
  intros HI Hs. event_split e w HI Hs; step_case; cbn; lia.
Qed.

Lemma run_rank (evs : list Event) :
  forall w w', Inv w -> run evs w = Some w' ->
  (rank (state_ w) <= rank (state_ w'))%nat.
Proof.
  induction evs as [|e evs IH]; intros w w' HI Hr; cbn in Hr.
  - injection Hr as <-. lia.
  - destruct (step e w) as [w1|] eqn:Hs; [|discriminate].
    pose proof (step_rank _ _ _ HI Hs).
    pose proof (IH _ _ (step_Inv _ _ _ HI Hs) Hr). lia.
Qed.

(** Once the flag is set, nothing clears it. *)
Lemma step_flag (e : Event) (w w' : World) :
  Inv w -> step e w = Some w' ->
  timer_created_ w = true -> timer_created_ w' = true.
Proof.
  intros HI Hs HF. event_split e w HI Hs; step_case; reflexivity.
Qed.

Lemma run_flag (evs : list Event) :
  forall w w', Inv w -> run evs w = Some w' ->
  timer_created_ w = true -> timer_created_ w' = true.
Proof.
  induction evs as [|e evs IH]; intros w w' HI Hr HF; cbn in Hr.
  - now injection Hr as <-.
  - destruct (step e w) as [w1|] eqn:Hs; [|discriminate].
    eapply IH; [eapply step_Inv; eauto|exact Hr|eapply step_flag; eauto].
Qed.

(** After the index has reached 0 and [Close] has been called, no tick is
    delivered. *)
Lemma Faded_no_tick (w : World) :
  Faded w -> in_close (phase w) = false -> GetMessage w <> Some WM_TIMER.
Proof.
  intros (HI & HA & _) HP HG. inv_open w HI. proj_all. subst a.
  unfold GetMessage in HG. cbn in HG.
  destruct q as [|q]; cbn in HG; [|discriminate].
  destruct qu; [discriminate|]. destruct t; [|discriminate].
  destruct (Ht eq_refl eq_refl HP) as (_ & _ & Hq). congruence.
Qed.

Lemma step_Faded (e : Event) (w w' : World) :
  Faded w -> step e w = Some w' ->
  Faded w' /\ alphas (trace w') = alphas (trace w) /\
  (in_close (phase w) = false -> in_close (phase w') = false).
Proof.
  intros HF Hs. destruct HF as (HI & HA0 & HSt).
  pose proof (step_Inv _ _ _ HI Hs) as HI'.
  enough (alpha_index_ w' = 0 /\
          (state_ w' = STATE_FADING \/ state_ w' = STATE_CLOSED) /\
          alphas (trace w') = alphas (trace w) /\
          (in_close (phase w) = false -> in_close (phase w') = false))
    by (unfold Faded; tauto).
  clear HI'.
  event_split e w HI Hs; try lia;
    (destruct HSt as [HSt|HSt]; [try discriminate HSt|try discriminate HSt]);
    step_case; cbn; rewrite ?alphas_app, ?app_nil_r; auto.
Qed.

Lemma run_Faded (evs : list Event) :
  forall w w', Faded w -> run evs w = Some w' ->
  Faded w' /\ alphas (trace w') = alphas (trace w) /\
  (in_close (phase w) = false -> in_close (phase w') = false).
Proof.
  induction evs as [|e evs IH]; intros w w' HF Hr; cbn in Hr.
  - injection Hr as <-. auto.
  - destruct (step e w) as [w1|] eqn:Hs; [|discriminate].
    destruct (step_Faded _ _ _ HF Hs) as (HF1 & E1 & P1).
    destruct (IH _ _ HF1 Hr) as (HF2 & E2 & P2).
    split; [assumption|]. split; [congruence|auto].
Qed.

(** Without a window nothing window-related ever happens. *)
Lemma step_NoWindow (e : Event) (w w' : World) :
  NoWindow w -> step e w = Some w' -> NoWindow w'.
Proof.
  intros HN Hs. destruct w as [st a tc h t q qu ph tr cp].
  unfold NoWindow in *. proj_all.
  destruct HN as (-> & -> & -> & -> & -> & -> & HW & -> & HP).
  destruct e as [ | ok | ans | | | ]; try destruct ans as [c x y z];
    cbv [step] in Hs; unfold_methods;
    destruct ph; try discriminate;
    injection Hs as <-; cbn; rewrite ?windowless_app, ?HW; cbn; auto 10.
Qed.

Lemma run_NoWindow (evs : list Event) :
  forall w w', NoWindow w -> run evs w = Some w' -> NoWindow w'.
Proof.
  induction evs as [|e evs IH]; intros w w' HN Hr; cbn in Hr.
  - now injection Hr as <-.
  - destruct (step e w) as [w1|] eqn:Hs; [|discriminate].
    eapply IH; [eapply step_NoWindow; eauto|exact Hr].
Qed.

Ltac tick_once :=
  match goal with
  | |- context [OnTimer (mkWorld ?s ?a ?c ?h ?t ?q ?u ?p ?r ?k)] =>
      rewrite (OnTimer_step (mkWorld s a c h t q u p r k));
      [ | reflexivity | cbn [alpha_index_]; lia ];
      cbv [emit set_alpha_index Close PostMessage_WM_CLOSE set_queue
           state_ alpha_index_ timer_created_ hwnd timer queue quit phase
           trace caller state_eqb negb andb];
      cbn [Z.eqb Pos.eqb Z.sub Z.add Z.opp Z.pos_sub Z.succ_double
           Z.pred_double Z.double Pos.pred_double]
  end.

Lemma seven_ticks (tc t qu : bool) (q : nat) (ph : ThreadPhase)
    (tr : list Effect) (cp : CallerPC) :
  ticks 7 (mkWorld STATE_FADING 7 tc true t q qu ph tr cp) =
  mkWorld STATE_FADING 0 tc true t (S q) qu ph
    (tr ++ [E_SetAlpha 237; E_SetAlpha 216; E_SetAlpha 191; E_SetAlpha 158;
            E_SetAlpha 119; E_SetAlpha 76; E_PostClose]) cp.
Proof.
  unfold ticks. do 7 tick_once.
  rewrite <- !app_assoc. reflexivity.
Qed.

(** [Dismiss] run statement by statement, with nothing in between, is
    [Dismiss]: six steps are enough for any call; the steps after the return
    are further calls, which find the state FADING or CLOSED. *)
Lemma Dismiss_steps (ok : bool) (w : World) :
  lock_free w = true ->
  run (repeat (EvDismiss ok) 6) w = Some (Dismiss ok w).
Proof.
  intros HL. destruct w as [st a tc h t q qu ph tr cp].
  destruct cp; try discriminate HL.
  destruct st, ok, h, ph; try discriminate HL; vm_compute; reflexivity.
Qed.

Lemma reachable_shown : reachable shown.
Proof.
  exists [EvShow; EvRunBegin all_ok; EvRunShow]. vm_compute. reflexivity.
Qed.

Lemma reachable_fading : reachable fading.
Proof.
  exists ([EvShow; EvRunBegin all_ok; EvRunShow] ++ dismiss_armed).
  vm_compute. reflexivity.
Qed.

Lemma reachable_faded_out : reachable faded_out.
Proof. exists happy_path. vm_compute. reflexivity. Qed.

Lemma reachable_arming : reachable arming.
Proof.
  exists ([EvShow; EvRunBegin all_ok; EvRunShow] ++
          [EvDismiss true; EvDismiss true; EvDismiss true]).
  vm_compute. reflexivity.
Qed.

(** ** What happens at most once *)

Lemma count_eff_app (p : Effect -> bool) (tr1 tr2 : list Effect) :
  count_eff p (tr1 ++ tr2) = (count_eff p tr1 + count_eff p tr2)%nat.
Proof. unfold count_eff. now rewrite filter_app, length_app. Qed.

Ltac count_close :=
  rewrite ?count_eff_app; unfold count_eff in *;
  cbn [filter length is_create is_set_timer is_timer_armed is_kill_timer
       is_destroy is_post_quit is_assert before_fading] in *;
  inv_facts;
  repeat match goal with
         | |- _ /\ _ => split
         | |- _ -> _ => intro
         end;
  subst; inv_facts; try discriminate; try lia;
  repeat match goal with
         | H : ?P -> _, H' : ?P |- _ => specialize (H H')
         end;
  inv_facts; try discriminate; try lia.

Lemma Once_init : Once SplashScreen.
Proof. unfold Once, SplashScreen. cbn. repeat split; auto; discriminate. Qed.

Lemma step_Once (e : Event) (w w' : World) :
  Inv w -> Once w -> step e w = Some w' -> Once w'.
Proof.
  intros HI HO Hs. unfold Once in *. cbv zeta in *.
  event_split e w HI Hs; step_case; count_close.
Qed.

Lemma run_Once (evs : list Event) :
  forall w w', Inv w -> Once w -> run evs w = Some w' -> Once w'.
Proof.
  induction evs as [|e evs IH]; intros w w' HI HO Hr; cbn in Hr.
  - now injection Hr as <-.
  - destruct (step e w) as [w1|] eqn:Hs; [|discriminate].
    eapply IH; [eapply step_Inv; eauto|eapply step_Once; eauto|exact Hr].
Qed.

Lemma reachable_Once (w : World) : reachable w -> Once w.
Proof.
  intros [evs Hr]. exact (run_Once evs _ _ Inv_init Once_init Hr).
Qed.

(** * C1 *)

(** C1, as stated, fails: from entry into SHOW_NORMAL (index 7), the seven
    ticks of a fade apply the opacity six times, not seven. *)
Lemma seven_ticks_apply_six_opacities :
  state_ shown = STATE_SHOW_NORMAL /\ alpha_index_ shown = 7 /\
  length (alphas (effects_since shown (ticks 7 (Dismiss true shown)))) <> 7%nat.
Proof.
  split; [reflexivity|]. split; [reflexivity|].
  vm_compute. discriminate.
Qed.

(** C1, amended: starting from SHOW_NORMAL (where the index is 7), a fade of
    seven successive ticks applies the opacity exactly six times, for the
    table entries 6 down to 1; the seventh tick applies none and posts the
    close request, which is the next message delivered; and from then on no
    timer tick is ever delivered again and no opacity is applied. *)
Theorem fade_from_show_normal (w : World) :
  reachable w -> state_ w = STATE_SHOW_NORMAL -> hwnd w = true ->
  let w7 := ticks 7 (Dismiss true w) in
  alpha_index_ w = 7 /\
  effects_since w (ticks 6 (Dismiss true w)) =
    [E_SetTimer true; E_SetAlpha 237; E_SetAlpha 216; E_SetAlpha 191;
     E_SetAlpha 158; E_SetAlpha 119; E_SetAlpha 76] /\
  trace w7 = trace w ++
    [E_SetTimer true; E_SetAlpha 237; E_SetAlpha 216; E_SetAlpha 191;
     E_SetAlpha 158; E_SetAlpha 119; E_SetAlpha 76; E_PostClose] /\
  alpha_index_ w7 = 0 /\
  GetMessage w7 = Some WM_CLOSE /\
  forall evs w', run evs w7 = Some w' ->
    GetMessage w' <> Some WM_TIMER /\ alphas (trace w') = alphas (trace w7).
Proof.
  intros HR HS HH. pose proof (reachable_Inv w HR) as HI.
  inv_open w HI. cbn in HS, HH. subst st h.
  specialize (Hsn eq_refl). specialize (Hbf eq_refl).
  destruct Hbf as (-> & -> & ->). subst a.
  destruct ph; cbn in Hph; inv_facts; try discriminate.
  assert (ED : Dismiss true (mkWorld STATE_SHOW_NORMAL 7 false true false q
                               qu InLoop tr Idle)
               = mkWorld STATE_FADING 7 true true true q qu InLoop
                   (tr ++ [E_SetTimer true]) Idle) by reflexivity.
  cbv zeta. rewrite ED, seven_ticks.
  cbn [alpha_index_ trace].
  split; [reflexivity|]. split.
  - unfold ticks. do 6 tick_once. unfold effects_since. cbn [trace].
    rewrite <- !app_assoc. rewrite skipn_app, skipn_all, Nat.sub_diag.
    reflexivity.
  - split; [now rewrite <- app_assoc|]. split; [reflexivity|].
    split; [reflexivity|].
    intros evs w' Hr.
    assert (HF : Faded (mkWorld STATE_FADING 0 true true true (S q) qu InLoop
                   ((tr ++ [E_SetTimer true]) ++
                    [E_SetAlpha 237; E_SetAlpha 216; E_SetAlpha 191;
                     E_SetAlpha 158; E_SetAlpha 119; E_SetAlpha 76;
                     E_PostClose]) Idle)).
    { unfold Faded. split; [|cbn; auto]. inv_close. }
    destruct (run_Faded _ _ _ HF Hr) as (HF' & EA & HP).
    split; [apply Faded_no_tick; auto|exact EA].
Qed.

Lemma fade_from_show_normal_witness :
  reachable shown /\ state_ shown = STATE_SHOW_NORMAL /\ hwnd shown = true /\
  alpha_index_ (ticks 7 (Dismiss true shown)) = 0.
Proof.
  split; [exact reachable_shown|]. split; [reflexivity|]. split; [reflexivity|].
  apply (fade_from_show_normal shown reachable_shown eq_refl eq_refl).
Defined.

(** * C2 *)

(** A world where the worker stands in the [Close] of the last tick gets
    its close request: a pending [Dismiss] has only the store of the flag
    left, after which the worker takes [lock_] and posts WM_CLOSE. *)
Lemma close_is_posted (w : World) :
  Inv w -> phase w = InClose ->
  exists w',
    run ((if caller_idle w then [] else [EvDismiss true]) ++ [EvPump]) w
      = Some w' /\
    trace w' = trace w ++ [E_PostClose] /\ phase w' = InLoop /\
    GetMessage w' = Some WM_CLOSE.
Proof.
  intros HI HP. inv_open w HI. proj_all. subst ph.
  destruct cp; inv_case; eexists; (split; [vm_compute; reflexivity|]);
    cbn; auto.
Qed.

(** C2: whenever the message loop of a reachable world delivers a timer
    tick, the state is FADING and the tick lowers [alpha_index_] by exactly
    one, to a value that is not negative.  A tick that leaves the index above
    0 applies the opacity of the new index and nothing else.  The tick that
    brings the index to 0 applies no opacity and calls [Close], which posts
    the close request; the worker does this in two steps, the index first
    and the request once [lock_] is free, which it is as soon as a pending
    [Dismiss] has returned.  From the moment the index is 0 no opacity is
    applied any more, the index stays 0, and no tick is delivered. *)
Theorem fade_tick (w : World) :
  reachable w -> phase w = InLoop -> GetMessage w = Some WM_TIMER ->
  let w' := OnTimer w in
  state_ w = STATE_FADING /\ state_ w' = STATE_FADING /\
  alpha_index_ w' = alpha_index_ w - 1 /\
  0 <= alpha_index_ w' /\
  (alpha_index_ w' <> 0 ->
     step EvPump w = Some w' /\
     trace w' = trace w ++
       [E_SetAlpha (AlphaScaleToAlphaValue (kAlphaScales_at (alpha_index_ w')))]
     /\ queue w' = queue w) /\
  (alpha_index_ w' = 0 ->
     let w0 := set_phase InClose (OnTimer_decrement w) in
     trace w' = trace w ++ [E_PostClose] /\
     GetMessage w' = Some WM_CLOSE /\
     step EvPump w = Some w0 /\
     alpha_index_ w0 = 0 /\ trace w0 = trace w /\
     step EvPump w0 = (if caller_idle w then Some w' else None) /\
     forall evs w'', run evs w0 = Some w'' ->
       alpha_index_ w'' = 0 /\
       alphas (trace w'') = alphas (trace w) /\
       (in_close (phase w'') = false -> GetMessage w'' <> Some WM_TIMER) /\
       (in_close (phase w'') = true ->
          exists w3,
            run ((if caller_idle w'' then [] else [EvDismiss true]) ++
                 [EvPump]) w'' = Some w3 /\
            trace w3 = trace w'' ++ [E_PostClose] /\
            GetMessage w3 = Some WM_CLOSE)).
Proof.
  intros HR HP HG. pose proof (reachable_Inv w HR) as HI.
  destruct (tick_premises w HI HP HG) as (HS & HH & HA & HT & HQ & HQu).
  cbv zeta.
  destruct (Z.eq_dec (alpha_index_ w) 1) as [E1|E1].
  - assert (Hstep : step EvPump w
                    = Some (set_phase InClose (OnTimer_decrement w))).
    { unfold step. rewrite HP, HG, HH. unfold OnTimer_takes_lock.
      rewrite E1. reflexivity. }
    pose proof (step_Inv _ _ _ HI Hstep) as HI0.
    revert Hstep HI0.
    destruct w as [st a tc h t q qu ph tr cp]. proj_all. subst.
    intros Hstep HI0.
    do 4 (split; [first [reflexivity | lia]|]).
    split; [intros H0; now contradiction H0|].
    intros _. split; [reflexivity|]. split; [reflexivity|].
    split; [exact Hstep|]. split; [reflexivity|]. split; [reflexivity|].
    split; [destruct cp; reflexivity|].
    intros evs w'' Hr.
    match type of Hr with run _ ?x = _ => assert (HF : Faded x) end.
    { split; [exact HI0|]. cbn; auto. }
    destruct (run_Faded _ _ _ HF Hr) as (HF' & EA & _).
    split; [apply HF'|]. split; [exact EA|]. split.
    + intros HC. now apply Faded_no_tick.
    + intros HC. destruct HF' as (HI'' & _).
      destruct (close_is_posted w'' HI'') as (w3 & R3 & T3 & _ & G3).
      { destruct (phase w''); try discriminate; reflexivity. }
      exists w3. auto.
  - assert (Hstep : step EvPump w = Some (OnTimer w)).
    { unfold step. rewrite HP, HG, HH. unfold OnTimer_takes_lock.
      rewrite int_wrap_small by lia.
      replace (alpha_index_ w - 1 =? 0) with false
        by (symmetry; apply Z.eqb_neq; lia).
      unfold DispatchMessage. rewrite HH. reflexivity. }
    rewrite OnTimer_step in * by assumption.
    replace (alpha_index_ w =? 1) with false in *
      by (symmetry; apply Z.eqb_neq; lia).
    destruct w as [st a tc h t q qu ph tr cp]. proj_all. subst. cbn.
    do 4 (split; [first [reflexivity | lia]|]).
    split; [intros _; split; [exact Hstep|split; reflexivity]|].
    intros H0'. lia.
Qed.

Lemma fade_tick_witness :
  reachable fading /\ phase fading = InLoop /\
  GetMessage fading = Some WM_TIMER /\
  alpha_index_ (OnTimer fading) = alpha_index_ fading - 1.
Proof.
  split; [exact reachable_fading|]. split; [reflexivity|]. split; [reflexivity|].
  apply (fade_tick fading reachable_fading eq_refl eq_refl).
Defined.

(** * C3 *)

(** C3, as stated, fails: after a complete fade the state is CLOSED and the
    timer has been cancelled, yet [timer_created_] is still true. *)
Lemma timer_flag_survives_close :
  reachable faded_out /\ state_ faded_out = STATE_CLOSED /\
  timer faded_out = false /\ timer_created_ faded_out = true /\
  ~ ((timer_created_ faded_out = true -> timer faded_out = true) /\
     (state_ faded_out <> STATE_FADING -> timer_created_ faded_out = false)).
Proof.
  split; [exact reachable_faded_out|].
  split; [reflexivity|]. split; [reflexivity|]. split; [reflexivity|].
  intros [H _]. specialize (H eq_refl). discriminate H.
Qed.

(** C3, amended: in every reachable world, [timer_created_] is false and no
    timer is installed while the state is CREATED, INITIALIZED or
    SHOW_NORMAL; an installed timer has its flag set as soon as no [Dismiss]
    is in progress, and comes from the one successful [SetTimer]; a set flag
    is found only in FADING or CLOSED, after exactly one successful
    [SetTimer], and once set nothing clears it, also not the cancelling of
    the timer nor the move to CLOSED. *)
Theorem timer_flag_invariant (w : World) :
  reachable w ->
  (before_fading (state_ w) = true ->
     timer_created_ w = false /\ timer w = false) /\
  (timer w = true ->
     (caller w = Idle -> timer_created_ w = true) /\
     count_eff is_timer_armed (trace w) = 1%nat) /\
  (timer_created_ w = true ->
     (state_ w = STATE_FADING \/ state_ w = STATE_CLOSED) /\
     count_eff is_timer_armed (trace w) = 1%nat /\
     forall evs w', run evs w = Some w' -> timer_created_ w' = true).
Proof.
  intros HR. pose proof (reachable_Inv w HR) as HI.
  pose proof (reachable_Once w HR) as HO.
  unfold Once in HO. cbv zeta in HO.
  destruct HO as (_ & _ & _ & _ & _ & HOc & _ & _ & _ & _ & _ & HOf).
  split; [|split].
  - intros HB. destruct HI as (_ & _ & _ & Hbf & _).
    destruct (Hbf HB) as (? & ? & _). auto.
  - intros HT. destruct HI as (_ & _ & _ & _ & _ & _ & Hcp).
    destruct (caller w) eqn:HC.
    + split; auto.
    + destruct Hcp as (_ & _ & _ & E & _). rewrite HT in E. discriminate E.
    + destruct Hcp as (_ & _ & _ & E & _). rewrite HT in E. discriminate E.
    + destruct Hcp as (_ & _ & _ & E & _). rewrite HT in E. cbn in E.
      subst r. split; [discriminate|exact HOc].
    + destruct Hcp as (_ & _ & _ & E & _). rewrite HT in E. discriminate E.
    + destruct Hcp as (_ & _ & _ & E & _). rewrite HT in E. discriminate E.
  - intros HF. split; [|split].
    + destruct HI as (_ & _ & _ & Hbf & _).
      destruct (state_ w); cbn in Hbf; auto;
        destruct (Hbf eq_refl) as (? & _); congruence.
    + auto.
    + intros evs w' Hr. eapply run_flag; eauto.
Qed.

Lemma timer_flag_invariant_witness :
  reachable fading /\ count_eff is_timer_armed (trace fading) = 1%nat.
Proof.
  split; [exact reachable_fading|].
  exact (proj2 (proj1 (proj2 (timer_flag_invariant fading reachable_fading))
                  eq_refl)).
Defined.

(** * C4 *)

Lemma Dismiss_settled (w : World) (ok : bool) :
  state_ w = STATE_CLOSED \/ state_ w = STATE_FADING \/
  state_ w = STATE_INITIALIZED ->
  Dismiss ok w = w.
Proof.
  unfold Dismiss. intros [-> | [-> | ->]]; reflexivity.
Qed.

Lemma Dismiss_settles (w : World) (ok : bool) :
  state_ (Dismiss ok w) = STATE_CLOSED \/
  state_ (Dismiss ok w) = STATE_FADING \/
  state_ (Dismiss ok w) = STATE_INITIALIZED.
Proof.
  destruct w as [st a tc h t q qu ph tr cp].
  destruct st, ok, h; cbn; auto.
Qed.

Lemma Dismiss_n_settled (n : nat) (w : World) (ok : bool) :
  state_ w = STATE_CLOSED \/ state_ w = STATE_FADING \/
  state_ w = STATE_INITIALIZED ->
  Dismiss_n n ok w = w.
Proof.
  intros H. induction n as [|n IH]; cbn; [reflexivity|].
  now rewrite Dismiss_settled.
Qed.

(** C4: a second [Dismiss] changes nothing the first one left, so any
    number of calls, one or more, has the effect of a single call; in states
    CLOSED, FADING and INITIALIZED the call changes nothing at all (state,
    index, flag, window, timer and trace alike); and from CLOSED no number of
    calls leaves CLOSED. *)
Theorem Dismiss_idempotent (w : World) (ok ok' : bool) (n : nat) :
  Dismiss ok' (Dismiss ok w) = Dismiss ok w /\
  Dismiss_n (S n) ok w = Dismiss ok w /\
  (state_ w = STATE_CLOSED \/ state_ w = STATE_FADING \/
   state_ w = STATE_INITIALIZED -> Dismiss ok w = w) /\
  (state_ w = STATE_CLOSED -> state_ (Dismiss_n n ok w) = STATE_CLOSED).
Proof.
  split; [|split; [|split]].
  - apply Dismiss_settled, Dismiss_settles.
  - cbn [Dismiss_n]. apply Dismiss_n_settled, Dismiss_settles.
  - apply Dismiss_settled.
  - intros H. rewrite Dismiss_n_settled; auto.
Qed.

(** * C5 *)

Lemma reachable_torn_down : reachable torn_down.
Proof.
  exists [EvShow; EvRunBegin all_ok; EvRunShow; EvExternalClose; EvPump].
  vm_compute. reflexivity.
Qed.




(** * C6 *)

(** C6: in a reachable world whose state is CREATED, [Dismiss] moves the
    state to CLOSED without any effect on the collaborators, and whatever
    happens afterwards the state stays CLOSED, no window exists, no timer is
    installed, [timer_created_] stays false, and the trace never contains a
    successful window creation, a timer call or an opacity change. *)
Theorem Dismiss_before_window (w : World) (ok : bool) :
  reachable w -> state_ w = STATE_CREATED ->
  let w1 := Dismiss ok w in
  state_ w1 = STATE_CLOSED /\ trace w1 = trace w /\
  forall evs w2, run evs w1 = Some w2 ->
    state_ w2 = STATE_CLOSED /\ hwnd w2 = false /\ timer w2 = false /\
    timer_created_ w2 = false /\ windowless (trace w2) = true.
Proof.
  intros HR HS. pose proof (reachable_Inv w HR) as HI. cbv zeta.
  assert (HN : NoWindow (Dismiss ok w)).
  { inv_open w HI. cbn in HS. subst st. unfold NoWindow. unfold_methods.
    specialize (Hcl eq_refl). specialize (Hbf eq_refl).
    destruct Hbf as (-> & -> & ->).
    destruct ph; cbn in Hph; inv_facts; try discriminate; subst;
      cbn; auto 10. }
  split; [apply HN|]. split.
  - unfold Dismiss. rewrite HS. destruct w; reflexivity.
  - intros evs w2 Hr.
    destruct (run_NoWindow _ _ _ HN Hr) as (? & ? & ? & ? & _ & _ & ? & _).
    auto.
Qed.

Lemma Dismiss_before_window_witness :
  reachable SplashScreen /\ state_ SplashScreen = STATE_CREATED /\
  state_ (Dismiss true SplashScreen) = STATE_CLOSED.
Proof.
  assert (HR : reachable SplashScreen) by (exists []; reflexivity).
  split; [exact HR|]. split; [reflexivity|].
  apply (Dismiss_before_window SplashScreen true HR eq_refl).
Defined.

(** * C7 *)

(** With the window gone and a quit request pending, the message loop drops
    what is left in the queue and returns. *)
Lemma message_loop_quits (n : nat) :
  forall (w : World) (fuel : nat),
  queue w = n -> hwnd w = false -> quit w = true -> (n < fuel)%nat ->
  message_loop fuel w = Some (set_queue 0 w).
Proof.
  induction n as [|n IH]; intros w fuel HQ HH HQu HF;
    destruct fuel as [|fuel]; try lia;
    destruct w as [st a tc h t q qu ph tr cp]; cbn in HQ, HH, HQu; subst q h qu.
  - reflexivity.
  - cbn [message_loop]. unfold GetMessage. cbn [queue Nat.ltb Nat.leb].
    unfold DispatchMessage. cbn [queue hwnd set_queue pred state_ alpha_index_
      timer_created_ timer quit phase trace caller].
    rewrite IH with (w := mkWorld st a tc false t n true ph tr cp);
      try reflexivity; lia.
Qed.

(** The same for the worker's steps among the interleavings, when no
    [Dismiss] is in progress: it takes the queued messages one by one, then
    the quit request, and ends in CLOSED. *)
Lemma pump_quits (n : nat) :
  forall w : World,
  queue w = n -> hwnd w = false -> quit w = true -> phase w = InLoop ->
  caller w = Idle ->
  run (repeat EvPump (S (S n))) w = Some (Run_end (set_queue 0 w)).
Proof.
  induction n as [|n IH]; intros w HQ HH HQu HP HC;
    destruct w as [st a tc h t q qu ph tr cp]; cbn in HQ, HH, HQu, HP, HC;
    subst q h qu ph cp.
  - reflexivity.
  - change (repeat EvPump (S (S (S n))))
      with (EvPump :: repeat EvPump (S (S n))).
    cbn [run]. unfold step. cbn [phase]. unfold GetMessage.
    cbn [queue Nat.ltb Nat.leb]. unfold DispatchMessage.
    cbn [queue hwnd set_queue pred state_ alpha_index_ timer_created_ timer
         quit phase trace caller].
    rewrite IH; reflexivity.
Qed.

(** A [Dismiss] in progress returns within three statements when the window
    is gone, and touches neither the queue nor the worker. *)
Lemma Dismiss_finishes (w : World) :
  Inv w -> hwnd w = false ->
  exists k w1,
    run (repeat (EvDismiss true) k) w = Some w1 /\ caller w1 = Idle /\
    phase w1 = phase w /\ hwnd w1 = false /\ quit w1 = quit w /\
    queue w1 = queue w /\ state_ w1 = state_ w.
Proof.
  intros HI HH. inv_open w HI. proj_all. subst h.
  destruct cp as [ | | | [|] | | ].
  - exists 0%nat. eexists. split; [reflexivity|]. cbn. auto 10.
  - exists 3%nat. eexists. split; [reflexivity|]. cbn. auto 10.
  - exists 2%nat. eexists. split; [reflexivity|]. cbn. auto 10.
  - exists 1%nat. eexists. split; [reflexivity|]. cbn. auto 10.
  - exists 3%nat. inv_case; eexists; (split; [reflexivity|]); cbn; auto 10.
  - exists 2%nat. inv_case; eexists; (split; [reflexivity|]); cbn; auto 10.
  - exists 1%nat. inv_case; eexists; (split; [reflexivity|]); cbn; auto 10.
Qed.

(** Once the window is gone the worker is on its way out, or out. *)
Lemma step_Leaving (e : Event) (w w' : World) :
  Inv w ->
  Leaving w \/ (phase w = Exited /\ state_ w = STATE_CLOSED) ->
  step e w = Some w' ->
  Leaving w' \/ (phase w' = Exited /\ state_ w' = STATE_CLOSED).
Proof.
  intros HI HL Hs. unfold Leaving in *.
  event_split e w HI Hs;
    (destruct HL as [(L1 & [(L2 & L3) | L2]) | (L2 & L3)]);
    try discriminate; step_case; cbn; auto 10.
Qed.

Lemma run_Leaving (evs : list Event) :
  forall w w', Inv w ->
  Leaving w \/ (phase w = Exited /\ state_ w = STATE_CLOSED) ->
  run evs w = Some w' ->
  Leaving w' \/ (phase w' = Exited /\ state_ w' = STATE_CLOSED).
Proof.
  induction evs as [|e evs IH]; intros w w' HI HL Hr; cbn in Hr.
  - now injection Hr as <-.
  - destruct (step e w) as [w1|] eqn:Hs; [|discriminate].
    eapply IH; [eapply step_Inv; eauto|eapply step_Leaving; eauto|exact Hr].
Qed.

(** A worker on its way out gets out: a pending [Dismiss] returns, the loop
    drops what is queued and takes the quit request, and [Run] closes. *)
Lemma Leaving_returns (w : World) :
  Inv w -> Leaving w ->
  exists evs w',
    run evs w = Some w' /\ phase w' = Exited /\ state_ w' = STATE_CLOSED.
Proof.
  intros HI (HH & HL).
  destruct (Dismiss_finishes w HI HH)
    as (k & w1 & R1 & C1 & P1 & H1 & Q1 & _ & _).
  destruct HL as [(HP & HQ) | HP].
  - exists (repeat (EvDismiss true) k ++ repeat EvPump (S (S (queue w1)))).
    eexists. split.
    + rewrite run_app, R1. apply pump_quits; congruence.
    + destruct w1; split; reflexivity.
  - exists (repeat (EvDismiss true) k ++ [EvPump]).
    exists (Run_close w1). split.
    + rewrite run_app, R1. cbn [run]. unfold step. rewrite P1, HP.
      unfold caller_idle. rewrite C1. reflexivity.
    + destruct w1; split; reflexivity.
Qed.

(** C7, as stated, fails: the destroy handler leaves [state_] as it is.
    After a shown window has been closed from outside, torn down and its
    handler has returned, the state is still SHOW_NORMAL, and a [Dismiss]
    made now takes it to FADING, not to CLOSED. *)
Lemma destroy_handler_keeps_state :
  reachable close_pending /\ state_ close_pending = STATE_SHOW_NORMAL /\
  step EvPump close_pending = Some torn_down /\
  state_ torn_down = STATE_SHOW_NORMAL /\ quit torn_down = true /\
  hwnd torn_down = false /\
  exists w, run (repeat (EvDismiss true) 6) torn_down = Some w /\
            state_ w = STATE_FADING.
Proof.
  split.
  { exists [EvShow; EvRunBegin all_ok; EvRunShow; EvExternalClose].
    vm_compute. reflexivity. }
  do 5 (split; [reflexivity|]).
  eexists. split; [vm_compute; reflexivity|reflexivity].
Qed.

(** C7, amended: when the loop of a reachable world hands a close request
    to a window that exists, the state is not CLOSED; the window is
    destroyed, and the destroy handler cancels the close-timer when
    [timer_created_] is set, posts the quit request and leaves the state as
    it was.  The state becomes CLOSED later and not in the handler: whatever
    happens afterwards, the worker is either on its way out of [Run] with
    the state still not CLOSED, or has returned with the state CLOSED; and
    it can always get there, once a pending [Dismiss] has returned. *)
Theorem destroy_notification (w0 : World) :
  reachable w0 -> phase w0 = InLoop -> hwnd w0 = true ->
  GetMessage w0 = Some WM_CLOSE ->
  let w := set_queue (pred (queue w0)) w0 in
  let w1 := DestroyWindow w in
  step EvPump w0 = Some w1 /\
  state_ w0 <> STATE_CLOSED /\ state_ w1 = state_ w0 /\
  trace w1 = trace w0 ++ [E_DestroyWindow] ++
    (if timer_created_ w0 then [E_KillTimer] else []) ++ [E_PostQuit] /\
  (timer_created_ w0 = true -> timer w1 = false) /\
  timer_created_ w1 = timer_created_ w0 /\
  quit w1 = true /\ hwnd w1 = false /\
  forall evs w2, run evs w1 = Some w2 ->
    (Leaving w2 /\ state_ w2 <> STATE_CLOSED \/
     phase w2 = Exited /\ state_ w2 = STATE_CLOSED) /\
    exists evs' w3,
      run evs' w2 = Some w3 /\ phase w3 = Exited /\ state_ w3 = STATE_CLOSED.
Proof.
  intros HR HP HH HG. pose proof (reachable_Inv w0 HR) as HI. cbv zeta.
  assert (Hstep : step EvPump w0
                  = Some (DestroyWindow (set_queue (pred (queue w0)) w0))).
  { unfold step. rewrite HP, HG. unfold DispatchMessage.
    destruct w0; cbn in HH; subst; reflexivity. }
  pose proof (step_Inv _ _ _ HI Hstep) as HI1.
  split; [exact Hstep|].
  assert (HL1 : Leaving (DestroyWindow (set_queue (pred (queue w0)) w0))).
  { destruct w0 as [st a tc h t q qu ph tr cp]. proj_all. subst.
    unfold Leaving. unfold_methods. destruct tc; cbn; auto. }
  assert (Hrest : forall evs w2,
            run evs (DestroyWindow (set_queue (pred (queue w0)) w0)) = Some w2 ->
            (Leaving w2 /\ state_ w2 <> STATE_CLOSED \/
             phase w2 = Exited /\ state_ w2 = STATE_CLOSED) /\
            exists evs' w3,
              run evs' w2 = Some w3 /\ phase w3 = Exited /\
              state_ w3 = STATE_CLOSED).
  { intros evs w2 Hr.
    pose proof (run_Inv _ _ _ HI1 Hr) as HI2.
    destruct (run_Leaving _ _ _ HI1 (or_introl HL1) Hr) as [HL2 | HE2].
    - split; [|now apply Leaving_returns].
      left. split; [exact HL2|].
      destruct HL2 as (_ & HL2).
      destruct HI2 as (_ & _ & _ & _ & _ & Hph & _).
      destruct HL2 as [(E & _) | E]; rewrite E in Hph;
        destruct Hph as (Hst & _); destruct (state_ w2); discriminate.
    - split; [now right|]. exists [], w2. tauto. }
  clear Hstep HI1 HL1. revert Hrest.
  inv_open w0 HI. proj_all. subst. intros Hrest.
  split.
  { destruct st; cbn in Hph; inv_facts; discriminate. }
  do 6 (split; [unfold_methods; destruct tc; cbn; rewrite <- ?app_assoc;
               first [reflexivity | discriminate]|]).
  exact Hrest.
Qed.

Lemma destroy_notification_witness :
  reachable close_pending /\ phase close_pending = InLoop /\
  hwnd close_pending = true /\ GetMessage close_pending = Some WM_CLOSE /\
  step EvPump close_pending
    = Some (DestroyWindow (set_queue (pred (queue close_pending))
                                    close_pending)).
Proof.
  assert (HR : reachable close_pending).
  { exists [EvShow; EvRunBegin all_ok; EvRunShow; EvExternalClose].
    vm_compute. reflexivity. }
  split; [exact HR|]. do 3 (split; [reflexivity|]).
  exact (proj1 (destroy_notification close_pending HR eq_refl eq_refl
                  eq_refl)).
Defined.


(** * C8 *)

(** C8, as stated, fails: a second [Show] made while the state is still
    CREATED trips no assertion and asks for the thread to be started again. *)
Lemma second_Show_is_not_flagged :
  state_ (Show SplashScreen) = STATE_CREATED /\
  effects_since (Show SplashScreen) (Show (Show SplashScreen)) =
    [E_ThreadStart] /\
  existsb is_assert (trace (Show (Show SplashScreen))) = false.
Proof. repeat split. Qed.

(** C8, amended: [Show] starts the worker thread exactly when the state is
    CREATED, and leaves the state alone.  In every other state, so after
    [Dismiss] has closed a never-shown splash screen and ever after the state
    has left CREATED, the call trips the assertion, starts no thread and
    changes nothing else. *)
Theorem Show_contract (w : World) (ok : bool) :
  reachable w ->
  state_ (Show w) = state_ w /\
  (state_ w = STATE_CREATED ->
     effects_since w (Show w) = [E_ThreadStart] /\
     Show (Dismiss ok w) = emit E_Assert (Dismiss ok w)) /\
  (state_ w <> STATE_CREATED ->
     forall evs w', run evs w = Some w' -> Show w' = emit E_Assert w').
Proof.
  intros HR. pose proof (reachable_Inv w HR) as HI.
  split; [|split].
  - destruct w as [st a tc h t q qu ph tr cp]. unfold_methods.
    destruct st, ph; reflexivity.
  - intros HS. split.
    + destruct w as [st a tc h t q qu ph tr cp]. cbn in HS. subst st.
      unfold effects_since. unfold_methods. cbn [trace].
      destruct ph; rewrite skipn_app, skipn_all, Nat.sub_diag; reflexivity.
    + unfold Dismiss. rewrite HS. destruct w; reflexivity.
  - intros HS evs w' Hr.
    pose proof (run_rank evs w w' HI Hr) as Hrk.
    unfold Show. destruct (state_ w') eqn:E'; try reflexivity.
    destruct (state_ w); cbn in Hrk; try lia. congruence.
Qed.

Lemma Show_contract_witness :
  reachable SplashScreen /\ state_ (Show SplashScreen) = state_ SplashScreen.
Proof.
  assert (HR : reachable SplashScreen) by (exists []; reflexivity).
  split; [exact HR|].
  apply (Show_contract SplashScreen true HR).
Defined.

(** * C9 *)

Lemma rank_inj (s s' : WindowState) : rank s = rank s' -> s = s'.
Proof. destruct s, s'; cbn; intros H; try reflexivity; discriminate. Qed.

(** C9: along every run from a reachable world the state only moves forward
    in the order CREATED, INITIALIZED, SHOW_NORMAL, FADING, CLOSED; so a state
    that has been left, CREATED and INITIALIZED among them, is never entered
    again, and once the state is CLOSED it stays CLOSED. *)
Theorem state_never_goes_back (evs evs' : list Event) (w w' w'' : World) :
  reachable w -> run evs w = Some w' -> run evs' w' = Some w'' ->
  (rank (state_ w) <= rank (state_ w'))%nat /\
  (state_ w' <> state_ w -> state_ w'' <> state_ w) /\
  (state_ w = STATE_CLOSED -> state_ w' = STATE_CLOSED).
Proof.
  intros HR Hr Hr'. pose proof (reachable_Inv w HR) as HI.
  pose proof (run_rank evs w w' HI Hr) as H1.
  pose proof (run_rank evs' w' w'' (run_Inv evs w w' HI Hr) Hr') as H2.
  split; [exact H1|]. split.
  - intros Hne Heq. apply Hne. apply rank_inj. rewrite Heq in H2. lia.
  - intros HS. rewrite HS in H1. destruct (state_ w'); cbn in H1; try lia.
    reflexivity.
Qed.

Lemma state_never_goes_back_witness :
  reachable shown /\ run dismiss_armed shown = Some fading /\
  run [EvPump] fading = Some (OnTimer fading) /\
  (state_ fading <> state_ shown -> state_ (OnTimer fading) <> state_ shown).
Proof.
  split; [exact reachable_shown|]. split; [reflexivity|]. split; [reflexivity|].
  apply (state_never_goes_back dismiss_armed [EvPump] shown fading
           (OnTimer fading) reachable_shown eq_refl eq_refl).
Defined.

(** * C10 *)

Lemma AlphaScaleToAlphaValue_eq (s : Z) :
  0 <= s <= 100 -> AlphaScaleToAlphaValue s = s * 255 / 100.
Proof.
  intros H. unfold AlphaScaleToAlphaValue, uint8_cast.
  rewrite int_wrap_small by lia.
  rewrite Z.quot_div_nonneg by lia.
  apply Z.mod_small. split.
  - apply Z.div_pos; lia.
  - apply Z.div_lt_upper_bound; lia.
Qed.

(** C10: for a scale between 0 and 100 the conversion is exactly
    [s * 255 / 100] with integer division, nothing is lost in the
    multiplication or in the cast to 8 bits, the result lies between 0 and
    255, scale 0 gives 0 and scale 100 gives 255, a larger scale never gives a
    smaller value, and so the values of the table entries do not decrease
    with the index. *)
Theorem AlphaScaleToAlphaValue_spec (s : Z) :
  0 <= s <= 100 ->
  AlphaScaleToAlphaValue s = s * 255 / 100 /\
  0 <= AlphaScaleToAlphaValue s <= 255 /\
  AlphaScaleToAlphaValue 0 = 0 /\ AlphaScaleToAlphaValue 100 = 255 /\
  (forall t, s <= t <= 100 ->
     AlphaScaleToAlphaValue s <= AlphaScaleToAlphaValue t) /\
  (forall i j, 0 <= i <= j -> j < arraysize kAlphaScales ->
     0 <= kAlphaScales_at i <= kAlphaScales_at j /\
     kAlphaScales_at j <= 100 /\
     AlphaScaleToAlphaValue (kAlphaScales_at i) <=
     AlphaScaleToAlphaValue (kAlphaScales_at j)).
Proof.
  intros H.
  assert (HB : forall x, 0 <= x <= 100 -> 0 <= x * 255 / 100 <= 255).
  { intros x Hx. split.
    - apply Z.div_pos; lia.
    - apply Z.lt_succ_r. apply Z.div_lt_upper_bound; lia. }
  assert (HM : forall x y, 0 <= x <= y -> y <= 100 ->
             AlphaScaleToAlphaValue x <= AlphaScaleToAlphaValue y).
  { intros x y Hx Hy. rewrite !AlphaScaleToAlphaValue_eq by lia.
    apply Z.div_le_mono; lia. }
  split; [now apply AlphaScaleToAlphaValue_eq|].
  split; [rewrite AlphaScaleToAlphaValue_eq by lia; now apply HB|].
  split; [reflexivity|]. split; [reflexivity|].
  split; [intros t Ht; apply HM; lia|].
  intros i j Hij Hj.
  assert (HT : 0 <= kAlphaScales_at i <= kAlphaScales_at j /\
               kAlphaScales_at j <= 100).
  { change (arraysize kAlphaScales) with 8 in Hj.
    assert (Ci : i = 0 \/ i = 1 \/ i = 2 \/ i = 3 \/ i = 4 \/ i = 5 \/
                 i = 6 \/ i = 7) by lia.
    assert (Cj : j = 0 \/ j = 1 \/ j = 2 \/ j = 3 \/ j = 4 \/ j = 5 \/
                 j = 6 \/ j = 7) by lia.
    destruct Ci as [-> | [-> | [-> | [-> | [-> | [-> | [-> | ->]]]]]]];
      destruct Cj as [-> | [-> | [-> | [-> | [-> | [-> | [-> | ->]]]]]]];
      try lia; vm_compute; intuition discriminate. }
  split; [tauto|]. split; [tauto|]. apply HM; tauto.
Qed.

Lemma AlphaScaleToAlphaValue_spec_witness :
  0 <= 47 <= 100 /\ AlphaScaleToAlphaValue 47 = 47 * 255 / 100.
Proof.
  split; [lia|]. apply (AlphaScaleToAlphaValue_spec 47). lia.
Defined.

(** * Further properties *)

Lemma reachable_started : reachable started.
Proof. exists [EvShow]. vm_compute. reflexivity. Qed.

Lemma reachable_init : reachable SplashScreen.
Proof. exists []. reflexivity. Qed.

(** ** The index stays inside the table *)

(** X1: in every reachable world [alpha_index_] is a valid index of
    [kAlphaScales]; in SHOW_NORMAL it is the last index; and when a timer
    tick is delivered the index is at least 1, so the decrement of [OnTimer]
    gives an index of the table again.  The worker is not at [GetMessage]
    while it stands in the [Close] of the last tick, where the index is 0. *)
Theorem alpha_index_in_table (w : World) :
  reachable w ->
  0 <= alpha_index_ w < arraysize kAlphaScales /\
  (state_ w = STATE_SHOW_NORMAL ->
     alpha_index_ w = arraysize kAlphaScales - 1) /\
  (in_close (phase w) = false -> GetMessage w = Some WM_TIMER ->
     0 <= alpha_index_ w - 1 < arraysize kAlphaScales - 1) /\
  (in_close (phase w) = true -> alpha_index_ w = 0).
Proof.
  intros HR. pose proof (reachable_Inv w HR) as HI.
  change (arraysize kAlphaScales) with 8.
  destruct HI as (Ha & Ht & Hsn & _ & _ & Hph & _).
  split; [lia|]. split; [intros HS; rewrite (Hsn HS); reflexivity|].
  split.
  - intros HP HG. unfold GetMessage in HG.
    destruct (queue w) eqn:HQ; cbn in HG; [|discriminate].
    destruct (quit w); [discriminate|].
    destruct (timer w) eqn:HT; [|discriminate].
    assert (alpha_index_ w <> 0).
    { intro H0. destruct (Ht eq_refl H0 HP) as (_ & _ & Hq). now apply Hq. }
    lia.
  - intros HP. destruct (phase w); try discriminate. tauto.
Qed.

Lemma alpha_index_in_table_witness :
  reachable fading /\ 0 <= alpha_index_ fading < arraysize kAlphaScales.
Proof.
  split; [exact reachable_fading|].
  exact (proj1 (alpha_index_in_table fading reachable_fading)).
Defined.

(** ** A shown window waits *)

(** X2: a reachable world in SHOW_NORMAL whose window exists, with nothing
    posted and no quit request, has no timer either, so the message loop
    blocks: the worker makes no step and, left alone, never returns.  The
    splash screen does not go away by itself. *)
Theorem shown_window_waits (w : World) (fuel : nat) :
  reachable w -> state_ w = STATE_SHOW_NORMAL -> hwnd w = true ->
  queue w = 0%nat -> quit w = false ->
  timer w = false /\ GetMessage w = None /\
  step EvPump w = None /\ message_loop fuel w = None.
Proof.
  intros HR HS HH HQ HQu. pose proof (reachable_Inv w HR) as HI.
  assert (HT : timer w = false).
  { destruct HI as (_ & _ & _ & Hbf & _). rewrite HS in Hbf.
    destruct (Hbf eq_refl) as (_ & ? & _). assumption. }
  assert (HG : GetMessage w = None).
  { unfold GetMessage. now rewrite HQ, HQu, HT. }
  split; [exact HT|]. split; [exact HG|]. split.
  - unfold step. rewrite HG.
    destruct HI as (_ & _ & _ & _ & _ & Hph & _).
    destruct (phase w); try reflexivity.
    + destruct Hph as (E & _). congruence.
    + destruct Hph as (_ & E & _). congruence.
  - destruct fuel; cbn; [reflexivity|]. now rewrite HG.
Qed.

Lemma shown_window_waits_witness :
  reachable shown /\ state_ shown = STATE_SHOW_NORMAL /\ hwnd shown = true /\
  queue shown = 0%nat /\ quit shown = false /\
  message_loop 100 shown = None.
Proof.
  split; [exact reachable_shown|]. split; [reflexivity|].
  split; [reflexivity|]. split; [reflexivity|]. split; [reflexivity|].
  apply (shown_window_waits shown 100 reachable_shown eq_refl eq_refl eq_refl
           eq_refl).
Defined.

(** ** Dismiss after the window is gone *)

(** X3: when the window of a reachable SHOW_NORMAL world has already been
    destroyed, [Dismiss] still moves to FADING and the assertion on the
    window trips.  [SetTimer] is called all the same and its answer is
    stored as it comes: on success the flag is set and the timer installed
    although no window is left to fade; on failure the warning is logged
    and [Close] posts nothing.  What the teardown left, the queue and the
    quit request, is as it was. *)
Theorem Dismiss_after_teardown (w : World) (ok : bool) :
  reachable w -> state_ w = STATE_SHOW_NORMAL -> hwnd w = false ->
  let w' := Dismiss ok w in
  state_ w' = STATE_FADING /\
  effects_since w w' =
    [E_Assert; E_SetTimer ok] ++ (if ok then [] else [E_LogWarning]) /\
  timer_created_ w' = ok /\ timer w' = ok /\
  queue w' = queue w /\ quit w' = quit w /\
  (phase w = InLoop -> quit w' = true) /\
  run (repeat (EvDismiss ok) 6) w = Some w'.
Proof.
  intros HR HS HH. pose proof (reachable_Inv w HR) as HI. cbv zeta.
  assert (HL : lock_free w = true).
  { inv_open w HI. proj_all. subst. inv_case; destruct ph; inv_case;
      reflexivity. }
  pose proof (Dismiss_steps ok w HL) as HD. revert HD. clear HL.
  inv_open w HI. cbn in HS, HH. subst st h. intros HD.
  destruct (Hbf eq_refl) as (-> & -> & ->).
  do 6 (split;
        [unfold effects_since; unfold_methods; cbn [trace];
         destruct ok; cbn; try reflexivity;
         rewrite <- !app_assoc; cbn [app];
         rewrite skipn_app, skipn_all, Nat.sub_diag; reflexivity|]).
  split; [|exact HD].
  cbn [phase]. intros ->. cbn in Hph. destruct Hph as (_ & E).
  unfold_methods. destruct qu, ok; try reflexivity; discriminate.
Qed.

Lemma Dismiss_after_teardown_witness :
  reachable torn_down /\ state_ torn_down = STATE_SHOW_NORMAL /\
  hwnd torn_down = false /\ state_ (Dismiss true torn_down) = STATE_FADING.
Proof.
  split; [exact reachable_torn_down|]. split; [reflexivity|].
  split; [reflexivity|].
  apply (Dismiss_after_teardown torn_down true reachable_torn_down
           eq_refl eq_refl).
Defined.

(** ** CLOSED is at rest *)

Lemma reachable_closed_Quiet (w : World) :
  reachable w -> state_ w = STATE_CLOSED -> Quiet w.
Proof.
  intros HR HS. pose proof (reachable_Inv w HR) as HI.
  inv_open w HI. cbn in HS. subst st. unfold Quiet. cbn.
  destruct ph; cbn in Hph; inv_facts; try discriminate; subst; auto 10.
Qed.

Lemma step_Quiet (e : Event) (w w' : World) :
  Quiet w -> step e w = Some w' ->
  Quiet w' /\ alpha_index_ w' = alpha_index_ w /\
  timer_created_ w' = timer_created_ w /\ timer w' = timer w /\
  exists tr, trace w' = trace w ++ tr /\ only_asserts tr = true.
Proof.
  intros HQ Hs. destruct w as [st a tc h t q qu ph tr cp].
  unfold Quiet in *. proj_all.
  destruct HQ as (-> & -> & -> & -> & -> & HP).
  destruct e as [ | ok | ans | | | ]; try destruct ans as [c x y z];
    cbv [step] in Hs; unfold_methods;
    destruct ph; try discriminate;
    injection Hs as <-; cbn;
    (split; [auto 10|]); do 3 (split; [reflexivity|]);
    first [ exists []; now rewrite app_nil_r
          | exists [E_Assert]; split; reflexivity ].
Qed.

(** X4: once a reachable world is CLOSED, whatever the caller, the worker
    and the outside do afterwards, the state stays CLOSED, there is no
    window, no posted message and no quit request, the index, the flag and
    the timer keep what they have, and the only effects are tripped
    assertions (those of late [Show] calls). *)
Theorem closed_is_at_rest (evs : list Event) (w w' : World) :
  reachable w -> state_ w = STATE_CLOSED -> run evs w = Some w' ->
  state_ w' = STATE_CLOSED /\ hwnd w' = false /\ timer w' = timer w /\
  queue w' = 0%nat /\ quit w' = false /\
  alpha_index_ w' = alpha_index_ w /\
  timer_created_ w' = timer_created_ w /\
  exists tr, trace w' = trace w ++ tr /\ only_asserts tr = true.
Proof.
  intros HR HS Hr. pose proof (reachable_closed_Quiet w HR HS) as HQ.
  clear HR HS. revert w HQ Hr.
  induction evs as [|e evs IH]; intros w HQ Hr; cbn in Hr.
  - injection Hr as <-. destruct HQ as (? & ? & ? & ? & ? & _).
    repeat (split; [assumption || reflexivity|]).
    exists []. now rewrite app_nil_r.
  - destruct (step e w) as [w1|] eqn:Hs; [|discriminate].
    destruct (step_Quiet e w w1 HQ Hs)
      as (HQ1 & Ea & Ef & Et & tr1 & Et1 & Ho1).
    destruct (IH w1 HQ1 Hr)
      as (? & ? & ? & ? & ? & Ea' & Ef' & tr2 & Et2 & Ho2).
    repeat (split; [assumption || congruence|]).
    exists (tr1 ++ tr2). split.
    + now rewrite Et2, Et1, app_assoc.
    + unfold only_asserts in *. now rewrite forallb_app, Ho1, Ho2.
Qed.

Lemma closed_is_at_rest_witness :
  reachable faded_out /\ state_ faded_out = STATE_CLOSED /\
  run [EvShow; EvDismiss true] faded_out =
    Some (Dismiss true (Show faded_out)) /\
  hwnd (Dismiss true (Show faded_out)) = false.
Proof.
  assert (Hr : run [EvShow; EvDismiss true] faded_out =
               Some (Dismiss true (Show faded_out)))
    by (vm_compute; reflexivity).
  split; [exact reachable_faded_out|]. split; [reflexivity|].
  split; [exact Hr|].
  apply (closed_is_at_rest [EvShow; EvDismiss true] faded_out
           (Dismiss true (Show faded_out)) reachable_faded_out eq_refl Hr).
Defined.

(** ** The message loop among the interleavings *)

Lemma DispatchMessage_frame (m : Msg) (w : World) :
  phase (DispatchMessage m w) = phase w /\
  caller (DispatchMessage m w) = caller w.
Proof.
  destruct w as [st a tc h t q qu ph tr cp].
  destruct m; unfold DispatchMessage.
  - cbn [hwnd]. destruct h; [|split; reflexivity].
    destruct st; unfold OnTimer, OnTimer_decrement;
      cbv [state_ state_eqb ASSERT1 alpha_index_ emit];
      destruct (0 <? a); unfold_methods;
      destruct (int_wrap (a - 1) =? 0);
      try destruct (alpha_scale_ok _); split; reflexivity.
  - unfold_methods. destruct h, tc; split; reflexivity.
  - split; reflexivity.
Qed.

(** One turn of the message loop is one step of the worker, or two for the
    last tick, when no [Dismiss] is in progress. *)
Lemma Dispatch_is_pumps (m : Msg) (w : World) :
  Inv w -> phase w = InLoop -> caller w = Idle ->
  GetMessage w = Some m -> m <> WM_QUIT ->
  exists k, run (repeat EvPump (S k)) w = Some (DispatchMessage m w).
Proof.
  intros HI HP HC HG Hm. destruct m; [| |congruence].
  - destruct (tick_premises w HI HP HG) as (HS & HH & HA & HT & HQ & HQu).
    destruct (Z.eq_dec (alpha_index_ w) 1) as [E1|E1].
    + exists 1%nat. cbn [repeat run]. unfold step at 1.
      rewrite HP, HG, HH. unfold OnTimer_takes_lock. rewrite E1.
      cbn [andb Z.sub Z.eqb Z.add Z.opp Z.pos_sub int_wrap].
      change (int_wrap 0 =? 0) with true. cbv iota.
      destruct w as [st a tc h t q qu ph tr cp]. proj_all. subst.
      reflexivity.
    + exists 0%nat. cbn [repeat run]. unfold step.
      rewrite HP, HG, HH. unfold OnTimer_takes_lock.
      rewrite int_wrap_small by lia.
      replace (alpha_index_ w - 1 =? 0) with false
        by (symmetry; apply Z.eqb_neq; lia).
      reflexivity.
  - exists 0%nat. cbn [repeat run]. unfold step. rewrite HP, HG. reflexivity.
Qed.

Lemma Dispatch_Inv (m : Msg) (w : World) :
  Inv w -> phase w = InLoop -> caller w = Idle ->
  GetMessage w = Some m -> m <> WM_QUIT -> Inv (DispatchMessage m w).
Proof.
  intros HI HP HC HG Hm.
  destruct (Dispatch_is_pumps m w HI HP HC HG Hm) as (k & Hr).
  eapply run_Inv; eauto.
Qed.

Lemma repeat_add {A} (x : A) (n m : nat) :
  repeat x (n + m) = repeat x n ++ repeat x m.
Proof. induction n; cbn; congruence. Qed.

Lemma message_loop_steps (fuel : nat) :
  forall w w' : World,
  Inv w -> phase w = InLoop -> caller w = Idle ->
  message_loop fuel w = Some w' ->
  exists n, run (repeat EvPump n) w = Some (Run_end w').
Proof.
  induction fuel as [|fuel IH]; intros w w' HI HP HC HL; cbn in HL;
    [discriminate|].
  destruct (GetMessage w) as [m|] eqn:HG; [|discriminate].
  assert (Hnext : m <> WM_QUIT ->
                  message_loop fuel (DispatchMessage m w) = Some w' ->
                  exists n, run (repeat EvPump n) w = Some (Run_end w')).
  { intros Hm HL'.
    destruct (Dispatch_is_pumps m w HI HP HC HG Hm) as (k & Hk).
    destruct (DispatchMessage_frame m w) as (EP & EC).
    destruct (IH _ _ (Dispatch_Inv m w HI HP HC HG Hm)
                (eq_trans EP HP) (eq_trans EC HC) HL') as (n & Hn).
    exists (S k + n)%nat. now rewrite repeat_add, run_app, Hk. }
  destruct m.
  - apply Hnext; [discriminate|exact HL].
  - apply Hnext; [discriminate|exact HL].
  - injection HL as <-. exists 2%nat. cbn [repeat run].
    unfold step at 1. rewrite HP, HG.
    destruct w as [st a tc h t q qu ph tr cp]. proj_all. subst. reflexivity.
Qed.

(** X5: the message loop of [Run], taken as one function of the worker left
    alone, is one of the interleavings: from a reachable world where the
    worker is at [GetMessage] and no [Dismiss] is in progress, when the loop
    returns, the rest of [Run] gives what some number of worker steps give;
    so everything proved of the reachable worlds holds of it, and the thread
    has ended in CLOSED. *)
Theorem message_loop_is_an_interleaving (fuel : nat) (w w' : World) :
  reachable w -> phase w = InLoop -> caller w = Idle ->
  message_loop fuel w = Some w' ->
  (exists n, run (repeat EvPump n) w = Some (Run_end w')) /\
  reachable (Run_end w') /\ phase (Run_end w') = Exited /\
  state_ (Run_end w') = STATE_CLOSED.
Proof.
  intros HR HP HC HL.
  destruct (message_loop_steps fuel w w' (reachable_Inv w HR) HP HC HL)
    as (n & Hn).
  split; [now exists n|]. split; [eapply reachable_run; eauto|].
  destruct w'; split; reflexivity.
Qed.

Lemma message_loop_is_an_interleaving_witness :
  reachable fading /\ phase fading = InLoop /\ caller fading = Idle /\
  message_loop 9 fading = Some fade_loop_end /\
  state_ (Run_end fade_loop_end) = STATE_CLOSED.
Proof.
  assert (HL : message_loop 9 fading = Some fade_loop_end)
    by (vm_compute; reflexivity).
  split; [exact reachable_fading|]. do 2 (split; [reflexivity|]).
  split; [exact HL|].
  exact (proj2 (proj2 (proj2 (message_loop_is_an_interleaving 9 fading
           fade_loop_end reachable_fading eq_refl eq_refl HL)))).
Defined.

(** X6: in the whole life of a splash screen, whatever the interleaving, at
    most one window is created, [SetTimer] is called at most once, the window
    is destroyed at most once and only after it was created, the quit request
    is posted exactly as often as the window is destroyed, and [KillTimer] is
    called at most once and only after a timer was armed. *)
Theorem effects_at_most_once (w : World) :
  reachable w ->
  let n p := count_eff p (trace w) in
  (n is_create <= 1)%nat /\ (n is_set_timer <= 1)%nat /\
  (n is_destroy <= n is_create)%nat /\
  n is_post_quit = n is_destroy /\
  (n is_kill_timer <= n is_destroy)%nat /\
  (n is_kill_timer <= n is_timer_armed)%nat /\
  (n is_timer_armed <= n is_set_timer)%nat.
Proof.
  intros HR. cbv zeta. pose proof (reachable_Once w HR) as HO.
  unfold Once in HO. cbv zeta in HO.
  destruct HO as (H1 & H2 & H3 & HA & H4 & H5 & H6 & H7 & H8 & H9 & H10 & H11).
  repeat split; try assumption; try lia.
  destruct (timer_created_ w);
    [specialize (H11 eq_refl)|specialize (H10 eq_refl)]; lia.
Qed.

Lemma effects_at_most_once_witness :
  reachable faded_out /\ (count_eff is_create (trace faded_out) <= 1)%nat.
Proof.
  split; [exact reachable_faded_out|].
  exact (proj1 (effects_at_most_once faded_out reachable_faded_out)).
Defined.

(** ** Which assertions can trip *)

(** X7: along the interleavings from a fresh object these assertions can
    trip and no other: the one of [Show], exactly when the state is not
    CREATED; the one on the window in [SwitchToState(STATE_FADING)], exactly
    when the window is gone by the time [Dismiss] gets there; and the two
    [VERIFY1] of [Initialize], exactly when [SetWindowText] or
    [CenterWindow] fails.  The [ASSERT1] of [Initialize], [Run], [OnTimer],
    [OnDestroy] and [AlphaScaleToAlphaValue] never trip. *)
Theorem assertions_tripped (e : Event) (w w' : World) :
  reachable w -> step e w = Some w' ->
  count_eff is_assert (trace w') =
  (count_eff is_assert (trace w) + asserts_of e w)%nat.
Proof.
  intros HR Hs. pose proof (reachable_Inv w HR) as HI. clear HR.
  unfold asserts_of.
  event_split e w HI Hs; step_case; rewrite ?table_scale_ok by lia;
    count_close.
Qed.

Lemma assertions_tripped_witness :
  reachable started /\
  step (EvRunBegin (mkAnswers true false true true)) started
    = Some (Run_begin (mkAnswers true false true true) started) /\
  count_eff is_assert
    (trace (Run_begin (mkAnswers true false true true) started)) = 1%nat.
Proof.
  assert (Hs : step (EvRunBegin (mkAnswers true false true true)) started
               = Some (Run_begin (mkAnswers true false true true) started))
    by reflexivity.
  split; [exact reachable_started|]. split; [exact Hs|].
  exact (assertions_tripped _ started _ reachable_started Hs).
Defined.

(** ** The opacities applied *)

Lemma Opacities_init : Opacities SplashScreen.
Proof. reflexivity. Qed.

Ltac opac_close :=
  rewrite ?alphas_app, ?app_nil_r;
  repeat match goal with
         | H : alphas _ = _ |- _ => rewrite H
         end;
  try reflexivity; auto.

Lemma step_Opacities (e : Event) (w w' : World) :
  Inv w -> Opacities w -> step e w = Some w' -> Opacities w'.
Proof.
  intros HI HO Hs. unfold Opacities in *. cbv zeta in *.
  event_split e w HI Hs.
  - step_case; cbn [alphas]; opac_close;
      destruct HO as [HO | HO]; rewrite HO; auto.
  - step_case; cbn [alphas]; opac_close.
  - step_case; cbn [alphas]; opac_close.
  - step_case; rewrite ?top_index; cbn [alphas]; opac_close.
  - assert (C : a = 2 \/ a = 3 \/ a = 4 \/ a = 5 \/ a = 6 \/ a = 7) by lia.
    unfold_methods.
    destruct C as [-> | [-> | [-> | [-> | [-> | ->]]]]];
      rewrite ?alphas_app, HO; reflexivity.
  - unfold_methods. exact HO.
  - step_case; opac_close.
  - step_case; opac_close.
  - step_case; opac_close.
  - step_case; right; exact HO.
  - step_case; exact HO.
Qed.

Lemma run_Opacities (evs : list Event) :
  forall w w', Inv w -> Opacities w -> run evs w = Some w' -> Opacities w'.
Proof.
  induction evs as [|e evs IH]; intros w w' HI HO Hr; cbn in Hr.
  - now injection Hr as <-.
  - destruct (step e w) as [w1|] eqn:Hs; [|discriminate].
    eapply IH; [eapply step_Inv; eauto|eapply step_Opacities; eauto|exact Hr].
Qed.

(** X8: over the whole life of a splash screen the opacities applied to the
    window are the values of the table read from the top down, without gap
    or repetition, starting with full opacity at initialisation; the read
    stops before the last entry, so opacity 0 is never applied and the
    opacity never goes up. *)
Theorem opacities_descend (w : World) :
  reachable w ->
  exists n, (n <= 7)%nat /\ alphas (trace w) = firstn n fade_values /\
            fade_values = [255; 237; 216; 191; 158; 119; 76; 0].
Proof.
  intros [evs Hr].
  pose proof (run_Inv evs _ _ Inv_init Hr) as HI.
  pose proof (run_Opacities evs _ _ Inv_init Opacities_init Hr) as HO.
  unfold Opacities in HO. cbv zeta in HO.
  destruct HI as (Ha & _).
  assert (HB : (Z.to_nat (8 - Z.max (alpha_index_ w) 1) <= 7)%nat) by lia.
  destruct (state_ w).
  - exists 0%nat. repeat split; [lia|exact HO].
  - exists 1%nat. repeat split; [lia|exact HO].
  - exists 1%nat. repeat split; [lia|exact HO].
  - eexists. repeat split; [exact HB|exact HO].
  - destruct HO as [HO | HO].
    + exists 0%nat. repeat split; [lia|exact HO].
    + eexists. repeat split; [exact HB|exact HO].
Qed.

Lemma opacities_descend_witness :
  reachable faded_out /\
  exists n, (n <= 7)%nat /\ alphas (trace faded_out) = firstn n fade_values /\
            fade_values = [255; 237; 216; 191; 158; 119; 76; 0].
Proof.
  split; [exact reachable_faded_out|].
  exact (opacities_descend faded_out reachable_faded_out).
Defined.

(** ** Every fade ends *)

Lemma Awake_init : Awake SplashScreen.
Proof. unfold Awake, SplashScreen. cbn. discriminate. Qed.

Lemma step_Awake (e : Event) (w w' : World) :
  Inv w -> Awake w -> step e w = Some w' -> Awake w'.
Proof.
  intros HI HW Hs. unfold Awake in *.
  event_split e w HI Hs; step_case; cbn in *; intros; try discriminate;
    auto;
    try solve [right; left; discriminate];
    try solve [apply HW; auto].
Qed.

Lemma reachable_Awake (w : World) : reachable w -> Awake w.
Proof.
  intros [evs Hr]. pose proof Inv_init as HI. pose proof Awake_init as HA.
  revert HI HA Hr. generalize SplashScreen as w0. revert w.
  induction evs as [|e evs IH]; intros w w0 HI HA Hr; cbn in Hr.
  - now injection Hr as <-.
  - destruct (step e w0) as [w1|] eqn:Hs; [|discriminate].
    eapply IH; [eapply step_Inv; eauto|eapply step_Awake; eauto|exact Hr].
Qed.

(** A posted close request ends the loop: the window is destroyed on the
    first one and the rest is dropped. *)
Lemma message_loop_closes (w : World) (n fuel : nat) :
  hwnd w = true -> queue w = S n -> (S n < fuel)%nat ->
  message_loop fuel w = Some (set_queue 0 (DestroyWindow (set_queue n w))).
Proof.
  intros HH HQ HF. destruct fuel as [|fuel]; [lia|].
  cbn [message_loop]. unfold GetMessage. rewrite HQ. cbn [Nat.ltb Nat.leb].
  unfold DispatchMessage. rewrite HQ. cbn [pred].
  replace (hwnd (set_queue n w)) with true by (destruct w; now cbn in * ).
  unfold OnClose.
  apply message_loop_quits with (n := n); [| | |lia];
    destruct w as [st a tc h t q qu ph tr cp]; cbn in HH; subst h;
    unfold_methods; now destruct tc.
Qed.

(** With the timer armed and nothing else pending, the ticks run the index
    down, the last one posts the close request, and the loop ends. *)
Lemma message_loop_fades (k : nat) :
  forall (tc : bool) (ph : ThreadPhase) (tr : list Effect) (cp : CallerPC)
         (fuel : nat),
  (S k <= 7)%nat -> (S k + 2 <= fuel)%nat ->
  exists w',
    message_loop fuel
      (mkWorld STATE_FADING (Z.of_nat (S k)) tc true true 0 false ph tr cp)
    = Some w' /\
    hwnd w' = false /\ quit w' = true /\ queue w' = 0%nat /\
    (tc = true -> timer w' = false).
Proof.
  induction k as [|k IH]; intros tc ph tr cp fuel Hk HF;
    (destruct fuel as [|fuel]; [lia|]);
    cbn [message_loop]; unfold GetMessage at 1; proj_all;
    cbn [Nat.ltb Nat.leb]; unfold DispatchMessage at 1; proj_all;
    rewrite OnTimer_step by (proj_all; first [reflexivity | lia]); proj_all.
  - change (Z.of_nat 1 =? 1) with true. cbv iota.
    unfold Close, PostMessage_WM_CLOSE, set_alpha_index, set_queue, emit.
    proj_all. cbn [state_eqb negb andb].
    rewrite message_loop_closes with (n := 0%nat); [|reflexivity|reflexivity|lia].
    eexists. split; [reflexivity|].
    unfold_methods. destruct tc; cbn; repeat split; auto; discriminate.
  - replace (Z.of_nat (S (S k)) =? 1) with false
      by (symmetry; apply Z.eqb_neq; lia).
    unfold emit, set_alpha_index. proj_all.
    replace (Z.of_nat (S (S k)) - 1) with (Z.of_nat (S k)) by lia.
    apply IH; lia.
Qed.

(** X9: a fade always ends.  From every reachable world in state FADING
    where the worker is at [GetMessage] and [Dismiss] has returned, the
    message loop, left alone, returns after at most [alpha_index_] ticks,
    the queued messages and two more turns; the window is then gone, and
    the timer with it when the window was still there to begin with; the
    rest of [Run] ends the thread in CLOSED, and all of it is what worker
    steps give.  No such world leaves the worker blocked. *)
Theorem fade_always_ends (w : World) (fuel : nat) :
  reachable w -> state_ w = STATE_FADING ->
  phase w = InLoop -> caller w = Idle ->
  (Z.to_nat (alpha_index_ w) + queue w + 2 <= fuel)%nat ->
  GetMessage w <> None /\
  exists w', message_loop fuel w = Some w' /\
    hwnd w' = false /\ queue w' = 0%nat /\
    (hwnd w = true -> timer w' = false) /\
    phase (Run_end w') = Exited /\ state_ (Run_end w') = STATE_CLOSED /\
    exists n, run (repeat EvPump n) w = Some (Run_end w').
Proof.
  intros HR HS HP HC HF. pose proof (reachable_Inv w HR) as HI.
  pose proof (reachable_Awake w HR HS HC HP) as HA.
  assert (Hsteps : forall w', message_loop fuel w = Some w' ->
            exists n, run (repeat EvPump n) w = Some (Run_end w')).
  { intros w'. now apply message_loop_steps. }
  revert Hsteps. clear HR.
  inv_open w HI. proj_all. subst st ph cp. intros Hsteps.
  cbn in Hph. destruct Hph as (_ & ->).
  destruct qu; cbn [negb] in *.
  - (* the window is already gone *)
    split; [unfold GetMessage; cbn; destruct q; discriminate|].
    eexists. split; [|split; [|split; [|split; [|split; [|split]]]]].
    + apply message_loop_quits with (n := q); try reflexivity. lia.
    + reflexivity.
    + reflexivity.
    + discriminate.
    + reflexivity.
    + reflexivity.
    + apply Hsteps. apply message_loop_quits with (n := q);
        try reflexivity. lia.
  - destruct q as [|q].
    + (* only the timer can wake the loop *)
      destruct HA as [HT | [HQ | HQ]]; try congruence. subst t.
      specialize (Hcp eq_refl). subst tc.
      assert (Ha0 : a <> 0).
      { intro Hz. destruct (Ht eq_refl Hz eq_refl) as (_ & _ & Hq).
        now apply Hq. }
      split; [unfold GetMessage; cbn; discriminate|].
      destruct (Z.to_nat a) as [|k] eqn:Ek; [lia|].
      revert Hsteps. replace a with (Z.of_nat (S k)) by lia. intros Hsteps.
      destruct (message_loop_fades k true InLoop tr Idle fuel)
        as (w' & HL & Hh & Hq & Hq0 & Ht'); [lia|lia|].
      exists w'. split; [exact HL|].
      split; [exact Hh|]. split; [exact Hq0|]. split; [auto|].
      split; [destruct w'; reflexivity|].
      split; [destruct w'; reflexivity|]. now apply Hsteps.
    + (* a close request is waiting *)
      split; [unfold GetMessage; cbn; discriminate|].
      assert (HL : message_loop fuel
                     (mkWorld STATE_FADING a tc true t (S q) false InLoop tr
                              Idle)
                   = Some (set_queue 0 (DestroyWindow (set_queue q
                       (mkWorld STATE_FADING a tc true t (S q) false InLoop tr
                                Idle))))).
      { apply message_loop_closes with (n := q); try reflexivity.
        proj_all. lia. }
      eexists. split; [exact HL|].
      assert (HT : t = true -> tc = true) by exact Hcp.
      split; [unfold_methods; destruct tc; reflexivity|].
      split; [unfold_methods; destruct tc; reflexivity|].
      split; [intros _; unfold_methods; destruct tc, t; cbn; auto;
              specialize (HT eq_refl); discriminate|].
      split; [unfold_methods; destruct tc; reflexivity|].
      split; [unfold_methods; destruct tc; reflexivity|].
      apply Hsteps. exact HL.
Qed.

Lemma fade_always_ends_witness :
  reachable fading /\ state_ fading = STATE_FADING /\
  phase fading = InLoop /\ caller fading = Idle /\
  (Z.to_nat (alpha_index_ fading) + queue fading + 2 <= 9)%nat /\
  GetMessage fading <> None.
Proof.
  assert (HF : (Z.to_nat (alpha_index_ fading) + queue fading + 2 <= 9)%nat)
    by (vm_compute; lia).
  split; [exact reachable_fading|]. do 3 (split; [reflexivity|]).
  split; [exact HF|].
  exact (proj1 (fade_always_ends fading 9 reachable_fading eq_refl eq_refl
                  eq_refl HF)).
Defined.

(** ** Run without a window *)

(** X10: the two early returns of [Run].  When the state is no longer
    CREATED (a [Dismiss] came first) the worker returns at once and does
    nothing at all.  When the window cannot be created, a reachable started
    worker returns with the failed [Create] as its only effect: no
    assertion trips, there is no window, the state is still CREATED, and
    neither case enters the message loop, whatever the fuel. *)
Theorem Run_returns_early (w : World) (ans : Answers) (fuel : nat) :
  reachable w -> phase w = Starting ->
  (state_ w <> STATE_CREATED ->
     Run ans fuel w = Some (set_phase Exited w)) /\
  (state_ w = STATE_CREATED -> window_created ans = false ->
     Run ans fuel w = Some (set_phase Exited (emit (E_Create false) w)) /\
     hwnd w = false).
Proof.
  intros HR HP. pose proof (reachable_Inv w HR) as HI.
  inv_open w HI. cbn in HP. subst ph. cbn in Hph. inv_facts. subst.
  destruct ans as [c x y z].
  split; intros HS; proj_all.
  - unfold Run, Run_begin. proj_all.
    destruct st; try contradiction; try reflexivity; cbn in *; discriminate.
  - cbn [window_created]. intros ->. subst st. split; reflexivity.
Qed.

Lemma Run_returns_early_witness :
  reachable started /\ phase started = Starting /\
  (state_ started = STATE_CREATED ->
     window_created (mkAnswers false true true true) = false ->
     Run (mkAnswers false true true true) 0 started =
       Some (set_phase Exited (emit (E_Create false) started)) /\
     hwnd started = false).
Proof.
  split; [exact reachable_started|]. split; [reflexivity|].
  exact (proj2 (Run_returns_early started (mkAnswers false true true true) 0
                  reachable_started eq_refl)).
Defined.

(** ** The destructor *)



(** ** Initialize *)

(** X14: [Initialize] on an object in CREATED without a window.  It fails
    exactly when [Create] fails, and then has done nothing else.  When the
    window is created the call succeeds whatever the other collaborators
    answer: the window exists, the state is INITIALIZED, full opacity is
    applied once, a failing [SetWindowText] or [CenterWindow] trips its
    [VERIFY1], a failing [SetWindowIcon] logs a warning, and index and flag
    are untouched. *)
Theorem Initialize_effects (ans : Answers) (w : World) :
  state_ w = STATE_CREATED -> hwnd w = false ->
  fst (Initialize ans w) = window_created ans /\
  (window_created ans = false ->
     snd (Initialize ans w) = emit (E_Create false) w) /\
  (window_created ans = true ->
     let w' := snd (Initialize ans w) in
     state_ w' = STATE_INITIALIZED /\ hwnd w' = true /\
     effects_since w w' =
       [E_Create true] ++ (if text_set ans then [] else [E_Assert]) ++
       [E_SetAlpha 255] ++ (if centered ans then [] else [E_Assert]) ++
       (if icon_set ans then [] else [E_LogWarning]) /\
     alpha_index_ w' = alpha_index_ w /\
     timer_created_ w' = timer_created_ w /\ timer w' = timer w).
Proof.
  intros HS HH. destruct w as [st a tc h t q qu ph tr cp]. proj_all. subst.
  destruct ans as [c x y z]. cbn [window_created text_set centered icon_set].
  split; [destruct c; reflexivity|]. split.
  - intros ->. reflexivity.
  - intros ->. unfold effects_since. unfold_methods.
    rewrite default_scale_ok.
    destruct x, y, z; cbn [fst snd trace state_ hwnd alpha_index_
                           timer_created_ timer];
      repeat split; rewrite <- ?app_assoc; cbn [app];
      rewrite skipn_app, skipn_all, Nat.sub_diag; reflexivity.
Qed.

Lemma Initialize_effects_witness :
  state_ started = STATE_CREATED /\ hwnd started = false /\
  fst (Initialize all_ok started) = true.
Proof.
  split; [reflexivity|]. split; [reflexivity|].
  exact (proj1 (Initialize_effects all_ok started eq_refl eq_refl)).
Defined.

(** ** Dismiss, statement by statement *)

(** X15: a [Dismiss] call that starts with [lock_] free and runs with
    nothing in between is, after six statements at most, the function
    [Dismiss], and has returned.  On the way from SHOW_NORMAL the third
    statement is the call of [SetTimer]: after it the answer is known and
    the timer installed if the answer is yes, while [timer_created_] still
    has its old value. *)
Theorem Dismiss_by_statements (ok : bool) (w : World) :
  lock_free w = true ->
  run (repeat (EvDismiss ok) 6) w = Some (Dismiss ok w) /\
  caller (Dismiss ok w) = Idle /\
  (state_ w = STATE_SHOW_NORMAL ->
     exists w3,
       run (repeat (EvDismiss ok) 3) w = Some w3 /\
       caller w3 = AtStore ok /\ state_ w3 = STATE_FADING /\
       timer w3 = (ok || timer w) /\ timer_created_ w3 = timer_created_ w).
Proof.
  intros HL. split; [now apply Dismiss_steps|].
  destruct w as [st a tc h t q qu ph tr cp].
  destruct cp; try discriminate HL. split.
  - destruct st, ok, h; reflexivity.
  - cbn [state_]. intros ->.
    destruct ph; try discriminate HL;
      eexists; (split; [vm_compute; reflexivity|]);
      destruct ok, h; cbn; auto.
Qed.

Lemma Dismiss_by_statements_witness :
  lock_free shown = true /\
  run (repeat (EvDismiss true) 6) shown = Some (Dismiss true shown).
Proof.
  split; [reflexivity|].
  exact (proj1 (Dismiss_by_statements true shown eq_refl)).
Defined.

(** ** A teardown while the timer is being armed *)

(** After the teardown no [KillTimer] is called any more. *)
Lemma step_no_kill (e : Event) (w w' : World) :
  Inv w -> Once w -> step e w = Some w' ->
  hwnd w = false /\ count_eff is_destroy (trace w) = 1%nat /\
  count_eff is_kill_timer (trace w) = 0%nat ->
  hwnd w' = false /\ count_eff is_destroy (trace w') = 1%nat /\
  count_eff is_kill_timer (trace w') = 0%nat.
Proof.
  intros HI HO Hs HK. unfold Once in *. cbv zeta in *.
  event_split e w HI Hs; step_case; count_close.
Qed.

Lemma run_no_kill (evs : list Event) :
  forall w w', Inv w -> Once w -> run evs w = Some w' ->
  hwnd w = false /\ count_eff is_destroy (trace w) = 1%nat /\
  count_eff is_kill_timer (trace w) = 0%nat ->
  count_eff is_kill_timer (trace w') = 0%nat.
Proof.
  induction evs as [|e evs IH]; intros w w' HI HO Hr HK; cbn in Hr.
  - injection Hr as <-. tauto.
  - destruct (step e w) as [w1|] eqn:Hs; [|discriminate].
    eapply IH; [eapply step_Inv; eauto|eapply step_Once; eauto|exact Hr|].
    eapply step_no_kill; eauto.
Qed.

(** X16: the handlers take no lock, so the window can be torn down between
    the [SetTimer] of a [Dismiss] and the store of its answer.  In a
    reachable world where [SetTimer] has just succeeded and a close request
    is the next message, the destroy handler finds [timer_created_] still
    false and calls no [KillTimer]; [Dismiss] then sets the flag, and
    whatever happens afterwards [KillTimer] is never called. *)
Theorem teardown_during_arming (w : World) :
  reachable w -> caller w = AtStore true -> phase w = InLoop ->
  hwnd w = true -> GetMessage w = Some WM_CLOSE ->
  let w1 := DestroyWindow (set_queue (pred (queue w)) w) in
  timer w = true /\ timer_created_ w = false /\
  count_eff is_kill_timer (trace w) = 0%nat /\
  step EvPump w = Some w1 /\
  effects_since w w1 = [E_DestroyWindow; E_PostQuit] /\
  (forall ok, exists w2,
     step (EvDismiss ok) w1 = Some w2 /\ timer_created_ w2 = true /\
     caller w2 = Idle /\ trace w2 = trace w1) /\
  forall evs w2, run evs w1 = Some w2 ->
    count_eff is_kill_timer (trace w2) = 0%nat.
Proof.
  intros HR HC HP HH HG. pose proof (reachable_Inv w HR) as HI.
  pose proof (reachable_Once w HR) as HO. cbv zeta.
  assert (Hstep : step EvPump w
                  = Some (DestroyWindow (set_queue (pred (queue w)) w))).
  { unfold step. rewrite HP, HG. unfold DispatchMessage.
    destruct w; cbn in HH; subst; reflexivity. }
  pose proof (step_Inv _ _ _ HI Hstep) as HI1.
  pose proof (step_Once _ _ _ HI HO Hstep) as HO1.
  assert (HK : count_eff is_kill_timer (trace w) = 0%nat /\
               count_eff is_destroy (trace w) = 0%nat).
  { unfold Once in HO. cbv zeta in HO.
    destruct HO as (_ & _ & _ & _ & _ & _ & _ & H8 & _ & _ & H10 & _).
    destruct HI as (_ & _ & _ & _ & _ & _ & Hcp). rewrite HC in Hcp.
    destruct Hcp as (_ & _ & E & _). destruct (H8 HH). auto. }
  destruct HK as (HK & HD).
  assert (HK1 : hwnd (DestroyWindow (set_queue (pred (queue w)) w)) = false /\
                count_eff is_destroy
                  (trace (DestroyWindow (set_queue (pred (queue w)) w)))
                  = 1%nat /\
                count_eff is_kill_timer
                  (trace (DestroyWindow (set_queue (pred (queue w)) w)))
                  = 0%nat).
  { clear Hstep HI1 HO1 HO HR HG.
    inv_open w HI. proj_all. subst.
    inv_case; unfold_methods;
      rewrite !count_eff_app, HK, HD; repeat split. }
  assert (Hrest : forall evs w2,
            run evs (DestroyWindow (set_queue (pred (queue w)) w)) = Some w2 ->
            count_eff is_kill_timer (trace w2) = 0%nat).
  { intros evs w2 Hr. eapply run_no_kill; eauto. }
  split.
  { destruct HI as (_ & _ & _ & _ & _ & _ & Hcp). rewrite HC in Hcp.
    destruct Hcp as (_ & _ & _ & E & _). exact E. }
  split.
  { destruct HI as (_ & _ & _ & _ & _ & _ & Hcp). rewrite HC in Hcp.
    destruct Hcp as (_ & _ & E & _). exact E. }
  split; [exact HK|]. split; [exact Hstep|].
  split; [|split; [|exact Hrest]].
  - clear Hstep HI1 HO1 HO HR HG Hrest HK1.
    inv_open w HI. proj_all. subst.
    inv_case; unfold effects_since; unfold_methods;
      rewrite <- !app_assoc; cbn [app];
      rewrite skipn_app, skipn_all, Nat.sub_diag; reflexivity.
  - clear Hstep HI1 HO1 HO HR HG Hrest HK1. intros ok.
    inv_open w HI. proj_all. subst.
    inv_case; eexists; (split; [reflexivity|]); cbn; auto.
Qed.

Lemma teardown_during_arming_witness :
  reachable arming_close_pending /\
  caller arming_close_pending = AtStore true /\
  phase arming_close_pending = InLoop /\ hwnd arming_close_pending = true /\
  GetMessage arming_close_pending = Some WM_CLOSE /\
  timer arming_close_pending = true.
Proof.
  assert (HR : reachable arming_close_pending).
  { apply (reachable_run [EvExternalClose] arming); [exact reachable_arming|].
    vm_compute. reflexivity. }
  split; [exact HR|]. do 4 (split; [reflexivity|]).
  exact (proj1 (teardown_during_arming arming_close_pending HR eq_refl eq_refl
                  eq_refl eq_refl)).
Defined.

(** ** Window chrome *)

Section WindowStyleFacts.

(** The values of WS_MINIMIZEBOX, WS_SYSMENU, WS_MAXIMIZEBOX and of
    WS_CHILD, WS_VISIBLE, PBS_MARQUEE, PBS_SMOOTH: any. *)
Variables minbox sysmenu maxbox : Z.
Variables child visible marquee smooth : Z.

Lemma disable_bit (style n : Z) :
  Z.testbit (EnableSystemButtons minbox sysmenu maxbox false style) n =
  Z.testbit style n && negb (Z.testbit (kSysStyleMask minbox sysmenu maxbox) n).
Proof.
  unfold EnableSystemButtons.
  rewrite Z.land_spec. destruct (Z.neg_nonneg_cases n) as [Hn | Hn].
  - now rewrite !Z.testbit_neg_r by assumption.
  - now rewrite Z.lnot_spec by assumption.
Qed.

Lemma enable_bit (style n : Z) :
  Z.testbit (EnableSystemButtons minbox sysmenu maxbox true style) n =
  Z.testbit style n || Z.testbit (kSysStyleMask minbox sysmenu maxbox) n.
Proof. unfold EnableSystemButtons. apply Z.lor_spec. Qed.

(** X12: [EnableSystemButtons] touches the three system-button bits and
    nothing else: enabling sets each bit of the mask, disabling clears each,
    every other bit of the style keeps its value; the last call wins, so
    either call is idempotent and overrides the other; and after disabling
    none of the mask bits is left. *)
Theorem EnableSystemButtons_bits (style n : Z) (b b' : bool) :
  Z.testbit (kSysStyleMask minbox sysmenu maxbox) n =
    Z.testbit minbox n || Z.testbit sysmenu n || Z.testbit maxbox n /\
  Z.testbit (EnableSystemButtons minbox sysmenu maxbox true style) n =
    Z.testbit style n
    || Z.testbit (kSysStyleMask minbox sysmenu maxbox) n /\
  Z.testbit (EnableSystemButtons minbox sysmenu maxbox false style) n =
    Z.testbit style n
    && negb (Z.testbit (kSysStyleMask minbox sysmenu maxbox) n) /\
  EnableSystemButtons minbox sysmenu maxbox b
    (EnableSystemButtons minbox sysmenu maxbox b' style) =
    EnableSystemButtons minbox sysmenu maxbox b style /\
  Z.land (EnableSystemButtons minbox sysmenu maxbox false style)
         (kSysStyleMask minbox sysmenu maxbox) = 0.
Proof.
  split.
  { unfold kSysStyleMask. now rewrite !Z.lor_spec. }
  split; [apply enable_bit|]. split; [apply disable_bit|]. split.
  - apply Z.bits_inj'. intros m _.
    destruct b, b';
      repeat (rewrite enable_bit || rewrite disable_bit);
      destruct (Z.testbit style m),
               (Z.testbit (kSysStyleMask minbox sysmenu maxbox) m);
      reflexivity.
  - apply Z.bits_inj'. intros m _.
    rewrite Z.land_spec, disable_bit, Z.bits_0.
    destruct (Z.testbit style m),
             (Z.testbit (kSysStyleMask minbox sysmenu maxbox) m);
      reflexivity.
Qed.

(** X13: [InitProgressBar] adds the four style bits to the progress bar and
    keeps every other bit, turns the marquee on with an interval of 60,
    whatever was set before, and doing it twice is the same as once. *)
Theorem InitProgressBar_bits (progress_bar : ProgressBar) (n : Z) :
  Z.testbit
    (pb_style (InitProgressBar child visible marquee smooth progress_bar)) n =
    Z.testbit (pb_style progress_bar) n
    || Z.testbit (kStyle child visible marquee smooth) n /\
  Z.testbit (kStyle child visible marquee smooth) n =
    Z.testbit child n || Z.testbit visible n
    || Z.testbit marquee n || Z.testbit smooth n /\
  pb_marquee (InitProgressBar child visible marquee smooth progress_bar) =
    Some (true, 60) /\
  InitProgressBar child visible marquee smooth
    (InitProgressBar child visible marquee smooth progress_bar) =
    InitProgressBar child visible marquee smooth progress_bar.
Proof.
  unfold InitProgressBar. cbn [pb_style pb_marquee].
  split; [apply Z.lor_spec|]. split.
  { unfold kStyle. now rewrite !Z.lor_spec. }
  split; [reflexivity|].
  f_equal. apply Z.bits_inj'. intros m _. rewrite !Z.lor_spec.
  destruct (Z.testbit (pb_style progress_bar) m),
           (Z.testbit (kStyle child visible marquee smooth) m);
    reflexivity.
Qed.

End WindowStyleFacts.
